(** * libmodal / modal-go / app.go

    A shallow embedding of [modal-go/app.go]: the App resolver
    ([AppLookup]), the sandbox definition compiler ([CreateSandbox]) and the
    three image factories, with the properties of the specification proved
    or refuted on it.

    Conventions of the embedding:
    - a Go [int] is a [Z]; [uint32(x)] of an integer is [x mod 2^32];
    - a [time.Duration] is its [int64] count of nanoseconds, a [Z];
    - a [float64] is a [spec_float] of the Standard Library at precision 53,
      with the library's round-to-nearest-even operations;
    - a pointer is an [option]; dereferencing [None] is the run-time panic
      [Panic];
    - a slice is a [list] (a nil slice and an empty one are both [[]]: the
      code only ever takes [len] of one or ranges over it);
    - [map[string]*Volume] is a [gmap string (option Volume)];
    - a Go [(value, error)] result is a pair of options. *)

From Stdlib Require Import ZArith Lia Bool.
From Stdlib Require Import Floats.SpecFloat.
From stdpp Require Import gmap strings list fin_maps.

Local Open Scope Z_scope.

(** ** Integers *)

(** [uint32(x)] for an integer [x]: the low 32 bits. *)
Definition uint32 (x : Z) : Z := x mod 2 ^ 32.

(** ** float64 *)

Module F64.

Definition prec : Z := 53.
Definition emax : Z := 1024.

Definition t := spec_float.

(** [float64(z)] for an integer [z]. *)
Definition of_int (z : Z) : t := binary_normalize prec emax z 0 false.

Definition add : t -> t -> t := SFadd prec emax.
Definition mul : t -> t -> t := SFmul prec emax.
Definition div : t -> t -> t := SFdiv prec emax.
Definition leb : t -> t -> bool := SFleb.

(** The integer part of a finite float: the fraction is discarded
    (truncation towards zero).  Infinities and NaN have none. *)
Definition trunc (f : t) : option Z :=
  match f with
  | S754_zero _ => Some 0
  | S754_finite s m e => Some (cond_Zopp s (Z.shiftl (Zpos m) e))
  | S754_infinity _ | S754_nan => None
  end.

(** The floor of a finite float: the greatest integer below it or equal to
    it.  [Z.shiftl] by a negative amount is the division by a power of two
    that rounds towards minus infinity. *)
Definition floor (f : t) : option Z :=
  match f with
  | S754_zero _ => Some 0
  | S754_finite s m e => Some (Z.shiftl (cond_Zopp s (Zpos m)) e)
  | S754_infinity _ | S754_nan => None
  end.

(** The floor of the product of the integer [k] and a finite float, the
    product taken exactly (not rounded to a float64). *)
Definition floor_scaled (k : Z) (f : t) : option Z :=
  match f with
  | S754_zero _ => Some 0
  | S754_finite s m e => Some (Z.shiftl (k * cond_Zopp s (Zpos m)) e)
  | S754_infinity _ | S754_nan => None
  end.

End F64.

(** ** The Go implementation *)

(** What the language leaves to the implementation and the code relies on. *)
Class GoImpl := {
  (** the order in which a [range] statement visits the entries of a map:
      every entry once, in an order that is not specified *)
  range_map : forall {V : Type}, gmap string V -> list (string * V);
  range_map_perm : forall {V : Type} (m : gmap string V),
      range_map m ≡ₚ map_to_list m;
  (** the value of [uint32(f)] for a [float64] whose integer part does not
      fit a [uint32] (or that has none): implementation-dependent *)
  uint32_of_unrepresentable : F64.t -> Z
}.

(** [uint32(f)] for a [float64] [f]. *)
Definition uint32_of_float64 `{GoImpl} (f : F64.t) : Z :=
  match F64.trunc f with
  | Some z =>
      if (0 <=? z) && (z <? 2 ^ 32) then z
      else uint32 (uint32_of_unrepresentable f)
  | None => uint32 (uint32_of_unrepresentable f)
  end.

(** ** package time *)

Module time.

(** [time.Duration]: nanoseconds. *)
Definition Duration := Z.

Definition Second : Duration := 1000000000.

(** [func (d Duration) Seconds() float64] of the Go standard library:
<<
    sec := d / Second
    nsec := d % Second
    return float64(sec) + float64(nsec)/1e9
>>
    Integer division truncates towards zero. *)
Definition Seconds (d : Duration) : F64.t :=
  let sec := Z.quot d Second in
  let nsec := Z.rem d Second in
  F64.add (F64.of_int sec) (F64.div (F64.of_int nsec) (F64.of_int 1000000000)).

End time.

(** ** Run-time panics *)

(** The outcome of a Go function call: it panics or it returns. *)
Inductive outcome (A : Type) : Type :=
| Panic : outcome A
| Return : A -> outcome A.
Arguments Panic {A}.
Arguments Return {A} _.

Definition obind {A B : Type} (o : outcome A) (k : A -> outcome B) : outcome B :=
  match o with
  | Panic => Panic
  | Return a => k a
  end.

Notation "x <-! o ; k" := (obind o (fun x => k))
  (at level 100, o at next level, k at level 200, right associativity).

(** Reading a field through a pointer. *)
Definition deref {A : Type} (p : option A) : outcome A :=
  match p with
  | None => Panic
  | Some a => Return a
  end.

(** ** Errors and gRPC statuses *)

Module codes.
(** [google.golang.org/grpc/codes.Code]. *)
Inductive Code : Set :=
| OK | Canceled | Unknown | InvalidArgument | DeadlineExceeded | NotFound
| AlreadyExists | PermissionDenied | ResourceExhausted | FailedPrecondition
| Aborted | OutOfRange | Unimplemented | Internal | Unavailable | DataLoss
| Unauthenticated.

Definition eqb (a b : Code) : bool :=
  match a, b with
  | OK, OK | Canceled, Canceled | Unknown, Unknown
  | InvalidArgument, InvalidArgument | DeadlineExceeded, DeadlineExceeded
  | NotFound, NotFound | AlreadyExists, AlreadyExists
  | PermissionDenied, PermissionDenied
  | ResourceExhausted, ResourceExhausted
  | FailedPrecondition, FailedPrecondition | Aborted, Aborted
  | OutOfRange, OutOfRange | Unimplemented, Unimplemented
  | Internal, Internal | Unavailable, Unavailable | DataLoss, DataLoss
  | Unauthenticated, Unauthenticated => true
  | _, _ => false
  end.
End codes.

(** The values of the Go interface [error] that reach app.go: the errors
    of the transport, with or without a gRPC status, and the domain error
    [NotFoundError] of the package (declared in another file of it: an error
    that carries a human-readable message). *)
Inductive error : Type :=
| StatusError (c : codes.Code) (msg : string)
    (** an error of the transport that carries a gRPC status *)
| WrapError (msg : string) (cause : error)
    (** an error that wraps another one ([Unwrap]) *)
| PlainError (msg : string)
    (** any other error: no status in its chain *)
| NotFoundError (msg : string).
    (** [modal.NotFoundError], the domain error of this package *)

Definition Error (e : error) : string :=
  match e with
  | StatusError _ msg | WrapError msg _ | PlainError msg | NotFoundError msg => msg
  end.

Module status.

Record Status := { code : codes.Code; message : string }.

(** [func (s *Status) Code() codes.Code]: [OK] on a nil status. *)
Definition Code (s : option Status) : codes.Code :=
  match s with
  | None => codes.OK
  | Some st => code st
  end.

(** The status code carried by an error or by the first error of its
    [Unwrap] chain that carries one. *)
Fixpoint carried (e : error) : option codes.Code :=
  match e with
  | StatusError c _ => Some c
  | WrapError _ cause => carried cause
  | PlainError _ | NotFoundError _ => None
  end.

(** [status.FromError]: a nil error gives [(nil, true)]; an error that
    carries a status gives it with [true] (for a wrapping error, with the
    message of the wrapping error); any other error gives an [Unknown]
    status with [false]. *)
Definition FromError (err : option error) : option Status * bool :=
  match err with
  | None => (None, true)
  | Some e =>
      match carried e with
      | Some c =>
          (Some {| code := c; message := Error e |}, true)
      | None => (Some {| code := codes.Unknown; message := Error e |}, false)
      end
  end.

End status.

(** ** The protocol messages ([pb]) *)

(** Modelled from the spec: the messages of the generated package
    [modal_proto] are not part of app.go.  Each record has the fields that
    app.go sets through the builder of the message or reads through a
    getter; each enumeration has the constants that app.go names, and the
    zero value.  An optional field is an [option]. *)
Module pb.

Inductive ObjectCreationType : Set :=
| OBJECT_CREATION_TYPE_UNSPECIFIED
| OBJECT_CREATION_TYPE_CREATE_IF_MISSING.

Record AppGetOrCreateRequest := {
  AppName : string;
  EnvironmentName : string;
  ObjectCreationType_ : ObjectCreationType
}.

Record AppGetOrCreateResponse := { AppGetOrCreateResponse_AppId : string }.

(** [GetAppId] is nil-safe: the empty string on a nil response. *)
Definition GetAppId (r : option AppGetOrCreateResponse) : string :=
  match r with
  | None => EmptyString
  | Some r => AppGetOrCreateResponse_AppId r
  end.

Record VolumeMount := {
  VolumeId : string;
  MountPath : string;
  AllowBackgroundCommits : bool;
  ReadOnly : bool
}.

Inductive TunnelType : Set := TUNNEL_TYPE_UNSPECIFIED | TUNNEL_TYPE_H2.

Record PortSpec := {
  Port : Z;
  Unencrypted : bool;
  TunnelType_ : option TunnelType
}.

Record PortSpecs := { Ports : list PortSpec }.

Inductive NetworkAccessType : Set :=
| NetworkAccess_UNSPECIFIED | NetworkAccess_OPEN.

Record NetworkAccess := { NetworkAccessType_ : NetworkAccessType }.

Record Resources := { MilliCpu : Z; MemoryMb : Z }.

Record Sandbox := {
  EntrypointArgs : list string;
  ImageId : string;
  TimeoutSecs : Z;
  NetworkAccess_ : NetworkAccess;
  Resources_ : Resources;
  VolumeMounts : list VolumeMount;
  OpenPorts : option PortSpecs
}.

Record SandboxCreateRequest := {
  AppId : string;
  SandboxDefinition : Sandbox
}.

Record SandboxCreateResponse := { SandboxId : string }.

Definition GetSandboxId (r : option SandboxCreateResponse) : string :=
  match r with
  | None => EmptyString
  | Some r => SandboxId r
  end.

Inductive RegistryAuthType : Set :=
| REGISTRY_AUTH_TYPE_UNSPECIFIED
| REGISTRY_AUTH_TYPE_AWS
| REGISTRY_AUTH_TYPE_GCP
| REGISTRY_AUTH_TYPE_STATIC_CREDS.

Record ImageRegistryConfig := {
  RegistryAuthType_ : RegistryAuthType;
  SecretId : string
}.

End pb.

(** ** The collaborators of app.go *)

(** What app.go calls and does not define: the context package, the RPC
    client (the package-level [client]) and the helpers of the other files of
    the package. *)
Class Collaborators := {
  (** [context.Context] *)
  context_Context : Type;
  (** [clientContext(ctx)] *)
  clientContext : context_Context -> context_Context * option error;
  (** [environmentName(environment)] *)
  environmentName : string -> string;
  (** [client.AppGetOrCreate(ctx, request)] *)
  client_AppGetOrCreate :
    context_Context -> pb.AppGetOrCreateRequest ->
    option pb.AppGetOrCreateResponse * option error;
  (** [client.SandboxCreate(ctx, request)] *)
  client_SandboxCreate :
    context_Context -> pb.SandboxCreateRequest ->
    option pb.SandboxCreateResponse * option error;
  (** [*Sandbox] and [newSandbox(ctx, sandboxId)] *)
  Sandbox : Type;
  newSandbox : context_Context -> string -> Sandbox
}.

(** ** The types of package modal used by app.go *)

(** Modelled from the spec: the struct [Volume] is declared in another file
    of the package; a volume is identified by an opaque string, the field
    [VolumeId] that app.go reads. *)
Record Volume := { VolumeId : string }.

(** Modelled from the spec: the struct [Secret] is declared in another file
    of the package; a secret is an identifier referencing stored
    credentials, the field [SecretId] that app.go reads. *)
Record Secret := { SecretId : string }.

(** Modelled from the spec: the struct [Image] is declared in another file
    of the package; an image is an identifier referencing a container image,
    the field [ImageId] that app.go reads. *)
Record Image := { ImageId : string }.

(** App references a deployed Modal App. *)
Record App `{Collaborators} := {
  AppId : string;
  ctx : context_Context
}.

(** LookupOptions are options for finding deployed Modal objects. *)
Record LookupOptions := {
  Environment : string;
  CreateIfMissing : bool
}.

(** SandboxOptions are options for creating a Modal Sandbox. *)
Record SandboxOptions := {
  CPU : F64.t;
  Memory : Z;
  Timeout : time.Duration;
  Command : list string;
  Volumes : option (gmap string (option Volume));
  EncryptedPorts : list Z;
  H2Ports : list Z;
  UnencryptedPorts : list Z
}.

(** ImageFromRegistryOptions are options for creating an Image from a
    registry. *)
Record ImageFromRegistryOptions := {
  ImageFromRegistryOptions_Secret : option Secret
}.

(** The zero values [&LookupOptions{}], [&SandboxOptions{}] and
    [&ImageFromRegistryOptions{}]. *)
Definition LookupOptions_zero : LookupOptions :=
  {| Environment := EmptyString; CreateIfMissing := false |}.

Definition SandboxOptions_zero : SandboxOptions :=
  {| CPU := S754_zero false; Memory := 0; Timeout := 0; Command := [];
     Volumes := None; EncryptedPorts := []; H2Ports := [];
     UnencryptedPorts := [] |}.

Definition ImageFromRegistryOptions_zero : ImageFromRegistryOptions :=
  {| ImageFromRegistryOptions_Secret := None |}.

(** ** AppLookup *)

(** [fmt.Sprintf("app '%s' not found", name)] *)
Definition app_not_found (name : string) : string :=
  String.append "app '" (String.append name "' not found").

(** AppLookup looks up an existing App, or creates an empty one. *)
Definition AppLookup `{Collaborators}
    (ctx0 : context_Context) (name : string) (options : option LookupOptions)
    : option App * option error :=
  let options := default LookupOptions_zero options in
  let '(ctx1, err) := clientContext ctx0 in
  match err with
  | Some err => (None, Some err)
  | None =>
      let creationType :=
        if CreateIfMissing options
        then pb.OBJECT_CREATION_TYPE_CREATE_IF_MISSING
        else pb.OBJECT_CREATION_TYPE_UNSPECIFIED in
      let '(resp, err) :=
        client_AppGetOrCreate ctx1
          {| pb.AppName := name;
             pb.EnvironmentName := environmentName (Environment options);
             pb.ObjectCreationType_ := creationType |} in
      let '(st, ok) := status.FromError err in
      if ok && codes.eqb (status.Code st) codes.NotFound
      then (None, Some (NotFoundError (app_not_found name)))
      else
        match err with
        | Some err => (None, Some err)
        | None => (Some {| AppId := pb.GetAppId resp; ctx := ctx1 |}, None)
        end
  end.

(** ** CreateSandbox *)

(** The loop over [options.Volumes], on the entries in the order the range
    visits them: one [append] per entry; [volume.VolumeId] panics on a nil
    [volume]. *)
Fixpoint range_Volumes (entries : list (string * option Volume))
    (volumeMounts : list pb.VolumeMount) : outcome (list pb.VolumeMount) :=
  match entries with
  | [] => Return volumeMounts
  | (mountPath, volume) :: entries =>
      v <-! deref volume;
      range_Volumes entries
        (volumeMounts ++
           [ {| pb.VolumeId := VolumeId v;
                pb.MountPath := mountPath;
                pb.AllowBackgroundCommits := true;
                pb.ReadOnly := false |} ])
  end.

(** The three loops over the port lists: one [append] per port. *)
Definition range_EncryptedPorts (ports : list Z) (openPorts : list pb.PortSpec)
    : list pb.PortSpec :=
  fold_left
    (fun openPorts port =>
       openPorts ++ [ {| pb.Port := uint32 port;
                         pb.Unencrypted := false;
                         pb.TunnelType_ := None |} ])
    ports openPorts.

Definition range_H2Ports (ports : list Z) (openPorts : list pb.PortSpec)
    : list pb.PortSpec :=
  fold_left
    (fun openPorts port =>
       openPorts ++ [ {| pb.Port := uint32 port;
                         pb.Unencrypted := false;
                         pb.TunnelType_ := Some pb.TUNNEL_TYPE_H2 |} ])
    ports openPorts.

Definition range_UnencryptedPorts (ports : list Z) (openPorts : list pb.PortSpec)
    : list pb.PortSpec :=
  fold_left
    (fun openPorts port =>
       openPorts ++ [ {| pb.Port := uint32 port;
                         pb.Unencrypted := true;
                         pb.TunnelType_ := None |} ])
    ports openPorts.

(** The first part of [CreateSandbox], up to the evaluation of the arguments
    of [client.SandboxCreate]: the context and the request of the call. *)
Definition CreateSandbox_request `{GoImpl} `{Collaborators}
    (app : option App) (image : option Image) (options : option SandboxOptions)
    : outcome (context_Context * pb.SandboxCreateRequest) :=
  let options := default SandboxOptions_zero options in
  volumeMounts <-!
    match Volumes options with
    | None => Return []
    | Some volumes => range_Volumes (range_map volumes) []
    end;
  let openPorts := [] in
  let openPorts := range_EncryptedPorts (EncryptedPorts options) openPorts in
  let openPorts := range_H2Ports (H2Ports options) openPorts in
  let openPorts := range_UnencryptedPorts (UnencryptedPorts options) openPorts in
  let portSpecs :=
    if (0 <? length openPorts)%nat
    then Some {| pb.Ports := openPorts |}
    else None in
  a <-! deref app;
  i <-! deref image;
  Return
    (ctx a,
     {| pb.AppId := AppId a;
        pb.SandboxDefinition :=
          {| pb.EntrypointArgs := Command options;
             pb.ImageId := ImageId i;
             pb.TimeoutSecs := uint32_of_float64 (time.Seconds (Timeout options));
             pb.NetworkAccess_ :=
               {| pb.NetworkAccessType_ := pb.NetworkAccess_OPEN |};
             pb.Resources_ :=
               {| pb.MilliCpu :=
                    uint32_of_float64 (F64.mul (F64.of_int 1000) (CPU options));
                  pb.MemoryMb := uint32 (Memory options) |};
             pb.VolumeMounts := volumeMounts;
             pb.OpenPorts := portSpecs |} |}).

(** CreateSandbox creates a new Sandbox in the App with the specified image
    and options. *)
Definition CreateSandbox `{GoImpl} `{Collaborators}
    (app : option App) (image : option Image) (options : option SandboxOptions)
    : outcome (option Sandbox * option error) :=
  call <-! CreateSandbox_request app image options;
  let '(createResp, err) := client_SandboxCreate (fst call) (snd call) in
  match err with
  | Some err => Return (None, Some err)
  | None =>
      Return (Some (newSandbox (fst call) (pb.GetSandboxId createResp)), None)
  end.

(** ** The image factories *)

Section Images.
Context `{Collaborators}.

(** [fromRegistryInternal(app, tag, imageRegistryConfig)], declared in
    another file of the package: it builds the image request around the
    registry configuration it is handed (nil: none) and resolves the
    image. *)
Variable fromRegistryInternal :
  option App -> string -> option pb.ImageRegistryConfig ->
  outcome (option Image * option error).

(** ImageFromRegistry creates an Image from a registry tag. *)
Definition ImageFromRegistry (app : option App) (tag : string)
    (options : option ImageFromRegistryOptions)
    : outcome (option Image * option error) :=
  let options := default ImageFromRegistryOptions_zero options in
  let imageRegistryConfig :=
    match ImageFromRegistryOptions_Secret options with
    | Some secret =>
        Some {| pb.RegistryAuthType_ := pb.REGISTRY_AUTH_TYPE_STATIC_CREDS;
                pb.SecretId := SecretId secret |}
    | None => None
    end in
  fromRegistryInternal app tag imageRegistryConfig.

(** ImageFromAwsEcr creates an Image from an AWS ECR tag. *)
Definition ImageFromAwsEcr (app : option App) (tag : string)
    (secret : option Secret) : outcome (option Image * option error) :=
  s <-! deref secret;
  let imageRegistryConfig :=
    Some {| pb.RegistryAuthType_ := pb.REGISTRY_AUTH_TYPE_AWS;
            pb.SecretId := SecretId s |} in
  fromRegistryInternal app tag imageRegistryConfig.

(** ImageFromGcpArtifactRegistry creates an Image from a GCP Artifact
    Registry tag. *)
Definition ImageFromGcpArtifactRegistry (app : option App) (tag : string)
    (secret : option Secret) : outcome (option Image * option error) :=
  s <-! deref secret;
  let imageRegistryConfig :=
    Some {| pb.RegistryAuthType_ := pb.REGISTRY_AUTH_TYPE_GCP;
            pb.SecretId := SecretId s |} in
  fromRegistryInternal app tag imageRegistryConfig.

End Images.


(** ** What the specification says of the compiled definition *)

(** The three categories of port specifications, in the words of the
    specification. *)
Definition encrypted_spec (port : Z) : pb.PortSpec :=
  {| pb.Port := uint32 port; pb.Unencrypted := false; pb.TunnelType_ := None |}.

Definition h2_spec (port : Z) : pb.PortSpec :=
  {| pb.Port := uint32 port; pb.Unencrypted := false;
     pb.TunnelType_ := Some pb.TUNNEL_TYPE_H2 |}.

Definition unencrypted_spec (port : Z) : pb.PortSpec :=
  {| pb.Port := uint32 port; pb.Unencrypted := true; pb.TunnelType_ := None |}.

(** All encrypted ports, then all H2 ports, then all unencrypted ports, each
    list in its input order. *)
Definition classified_ports (options : SandboxOptions) : list pb.PortSpec :=
  (encrypted_spec <$> EncryptedPorts options)
    ++ (h2_spec <$> H2Ports options)
    ++ (unencrypted_spec <$> UnencryptedPorts options).

(** The ports of an optional port-spec collection (none when absent). *)
Definition GetPorts (specs : option pb.PortSpecs) : list pb.PortSpec :=
  match specs with
  | None => []
  | Some specs => pb.Ports specs
  end.

(** The mount of a volume at a path, with the two fixed flags. *)
Definition mount_of (entry : string * Volume) : pb.VolumeMount :=
  {| pb.VolumeId := VolumeId entry.2;
     pb.MountPath := entry.1;
     pb.AllowBackgroundCommits := true;
     pb.ReadOnly := false |}.

(** The mount compiled from an entry of the mapping whose volume may be
    nil (none then). *)
Definition entry_mount (entry : string * option Volume) : option pb.VolumeMount :=
  volume ← entry.2; Some (mount_of (entry.1, volume)).

(** No entry of the volumes mapping holds a nil [*Volume]. *)
Definition Volumes_valid (options : SandboxOptions) : Prop :=
  match Volumes options with
  | None => True
  | Some volumes => map_Forall (fun _ volume => is_Some volume) volumes
  end.

(** The request [AppLookup] sends for a name and options. *)
Definition lookup_request `{Collaborators}
    (name : string) (options : LookupOptions) : pb.AppGetOrCreateRequest :=
  {| pb.AppName := name;
     pb.EnvironmentName := environmentName (Environment options);
     pb.ObjectCreationType_ :=
       if CreateIfMissing options
       then pb.OBJECT_CREATION_TYPE_CREATE_IF_MISSING
       else pb.OBJECT_CREATION_TYPE_UNSPECIFIED |}.

(** A string occurs in another one. *)
Definition occurs_in (part whole : string) : Prop :=
  exists before after,
    whole = String.append before (String.append part after).

(** ** Rounding to float64 *)

(** The exponent of the last place of a float64 of magnitude [2^e]. *)
Definition fexp64 (e : Z) : Z := fexp F64.prec F64.emax e.

(** The last step of [binary_round_aux]: the float of a rounded mantissa and
    its exponent. *)
Definition finish (sx : bool) (m e : Z) : spec_float :=
  match m with
  | Z0 => S754_zero sx
  | Zpos p =>
      if e <=? F64.emax - F64.prec then S754_finite sx p e
      else S754_infinity sx
  | Zneg _ => S754_nan
  end.

(** ** Reading a compiled port sequence back *)

(** The category of a port specification, by its two flags. *)
Definition is_encrypted (spec : pb.PortSpec) : bool :=
  negb (pb.Unencrypted spec)
  && match pb.TunnelType_ spec with None => true | Some _ => false end.

Definition is_h2 (spec : pb.PortSpec) : bool :=
  negb (pb.Unencrypted spec)
  && match pb.TunnelType_ spec with
     | Some pb.TUNNEL_TYPE_H2 => true
     | _ => false
     end.

Definition is_unencrypted (spec : pb.PortSpec) : bool :=
  pb.Unencrypted spec.

(** The port numbers of the specifications of a category, in order. *)
Definition ports_of (category : pb.PortSpec -> bool)
    (specs : list pb.PortSpec) : list Z :=
  pb.Port <$> List.filter category specs.

(** A transport that answers [NotFound] to a lookup only when the request
    does not ask for creation. *)
Definition NotFound_only_without_creation `{Collaborators} : Prop :=
  forall c request resp e,
    client_AppGetOrCreate c request = (resp, Some e) ->
    status.carried e = Some codes.NotFound ->
    pb.ObjectCreationType_ request = pb.OBJECT_CREATION_TYPE_UNSPECIFIED.

(** ** Instances on which the definitions are run *)

(** An implementation whose range visits a map in the order of
    [map_to_list] and whose out-of-range conversions give 0. *)
Definition GoImpl_map_to_list : GoImpl :=
  {| range_map := fun V m => map_to_list m;
     range_map_perm := fun V m => Permutation_refl (map_to_list m);
     uint32_of_unrepresentable := fun _ => 0 |}.

(** A control plane on which no app exists yet: a lookup fails with
    [NotFound] unless creation is requested; every sandbox is accepted. *)
Definition fresh_server : Collaborators :=
  {| context_Context := list string;
     clientContext := fun c => (c ++ ["x-modal-client"]%string, None);
     environmentName := fun e => e;
     client_AppGetOrCreate := fun _ request =>
       match pb.ObjectCreationType_ request with
       | pb.OBJECT_CREATION_TYPE_CREATE_IF_MISSING =>
           (Some {| pb.AppGetOrCreateResponse_AppId :=
                      String.append "ap-" (pb.AppName request) |}, None)
       | pb.OBJECT_CREATION_TYPE_UNSPECIFIED =>
           (None, Some (StatusError codes.NotFound "App not found"))
       end;
     client_SandboxCreate := fun _ request =>
       (Some {| pb.SandboxId := String.append "sb-" (pb.AppId request) |}, None);
     Sandbox := string;
     newSandbox := fun _ id => id |}.

Definition app_1 : @App fresh_server :=
  @Build_App fresh_server "ap-1" ["x-modal-client"]%string.

Definition image_1 : Image := {| ImageId := "im-1" |}.

(** The port lists of the example of the specification. *)
Definition options_ports : SandboxOptions :=
  {| CPU := S754_zero false; Memory := 0; Timeout := 0; Command := [];
     Volumes := None;
     EncryptedPorts := [1; 2]; H2Ports := [3]; UnencryptedPorts := [4] |}.

(** Ports and memory that do not fit 32 unsigned bits. *)
Definition options_wrapping : SandboxOptions :=
  {| CPU := S754_zero false; Memory := -1; Timeout := 0; Command := [];
     Volumes := None;
     EncryptedPorts := [-1]; H2Ports := [2 ^ 32 + 443];
     UnencryptedPorts := [70000] |}.

(** Two volumes mounted at two paths. *)
Definition volumes_2 : gmap string Volume :=
  <["/data" := {| VolumeId := "vo-1" |}]>
    (<["/cache" := {| VolumeId := "vo-2" |}]> ∅).

Definition options_volumes : SandboxOptions :=
  {| CPU := S754_zero false; Memory := 0; Timeout := 0; Command := [];
     Volumes := Some (Some <$> volumes_2);
     EncryptedPorts := []; H2Ports := []; UnencryptedPorts := [] |}.

(** A control plane that has no environment of the requested name: it
    answers [NotFound] whatever the creation type. *)
Definition server_without_environment : Collaborators :=
  {| context_Context := list string;
     clientContext := fun c => (c ++ ["x-modal-client"]%string, None);
     environmentName := fun e => e;
     client_AppGetOrCreate := fun _ request =>
       (None,
        Some (StatusError codes.NotFound
                (String.append "Environment '"
                   (String.append (pb.EnvironmentName request)
                      "' not found"))));
     client_SandboxCreate := fun _ request =>
       (None, Some (StatusError codes.NotFound "App not found"));
     Sandbox := string;
     newSandbox := fun _ id => id |}.

(** A control plane that denies every call. *)
Definition server_denying : Collaborators :=
  {| context_Context := list string;
     clientContext := fun c => (c ++ ["x-modal-client"]%string, None);
     environmentName := fun e => e;
     client_AppGetOrCreate := fun _ request =>
       (None, Some (StatusError codes.PermissionDenied "denied"));
     client_SandboxCreate := fun _ request =>
       (None, Some (StatusError codes.PermissionDenied "denied"));
     Sandbox := string;
     newSandbox := fun _ id => id |}.

(** An image resolver that accepts every tag. *)
Definition resolve_any_image `{Collaborators}
    (app : option App) (tag : string) (config : option pb.ImageRegistryConfig)
    : outcome (option Image * option error) :=
  Return (Some {| ImageId := String.append "im-" tag |}, None).

Definition secret_1 : Secret := {| SecretId := "st-1" |}.

(** Timeouts of 90.7 seconds, of 1.9 seconds, of 2^24 seconds and
    999999999 nanoseconds (a little over 194 days), and of minus half a
    second. *)
Definition options_timeout (d : time.Duration) : SandboxOptions :=
  {| CPU := S754_zero false; Memory := 0; Timeout := d; Command := [];
     Volumes := None;
     EncryptedPorts := []; H2Ports := []; UnencryptedPorts := [] |}.

Definition timeout_90_7s : time.Duration := 90700000000.
Definition timeout_1_9s : time.Duration := 1900000000.
Definition timeout_194_days : time.Duration := 2 ^ 24 * 1000000000 + 999999999.
Definition timeout_negative : time.Duration := -500000000.

(** The float64 0.25, the float64 nearest to 0.57 and the float64
    5000000. *)
Definition cpu_quarter : F64.t := S754_finite false 4503599627370496 (-54).
Definition cpu_0_57 : F64.t := S754_finite false 5134103575202365 (-53).
Definition cpu_5e6 : F64.t := S754_finite false 5368709120000000 (-30).

Definition options_resources (cpu : F64.t) (memory : Z) : SandboxOptions :=
  {| CPU := cpu; Memory := memory; Timeout := 0; Command := [];
     Volumes := None;
     EncryptedPorts := []; H2Ports := []; UnencryptedPorts := [] |}.

(** An implementation whose range visits a map in the reverse order. *)
Definition GoImpl_reverse : GoImpl :=
  {| range_map := fun V m => reverse (map_to_list m);
     range_map_perm := fun V m => reverse_Permutation (map_to_list m);
     uint32_of_unrepresentable := fun _ => 4294967295 |}.

(** A client without credentials: [clientContext] fails. *)
Definition client_without_credentials : Collaborators :=
  {| context_Context := list string;
     clientContext := fun c => (c, Some (PlainError "missing token"));
     environmentName := fun e => e;
     client_AppGetOrCreate := fun _ request =>
       (Some {| pb.AppGetOrCreateResponse_AppId := "ap-0" |}, None);
     client_SandboxCreate := fun _ request =>
       (Some {| pb.SandboxId := "sb-0" |}, None);
     Sandbox := string;
     newSandbox := fun _ id => id |}.


(** A timeout of one year of 365 days. *)
Definition timeout_1_year : time.Duration := 31536000 * 1000000000.

(** * Properties *)

(** ** The loops of CreateSandbox *)

Lemma range_EncryptedPorts_app ports openPorts :
  range_EncryptedPorts ports openPorts
  = openPorts ++ (encrypted_spec <$> ports).
Proof.
  revert openPorts.
  induction ports as [|port ports IH]; intros openPorts; simpl.
  - by rewrite app_nil_r.
  - unfold range_EncryptedPorts in *. simpl. rewrite IH.
    by rewrite <- app_assoc.
Qed.

Lemma range_H2Ports_app ports openPorts :
  range_H2Ports ports openPorts = openPorts ++ (h2_spec <$> ports).
Proof.
  revert openPorts.
  induction ports as [|port ports IH]; intros openPorts; simpl.
  - by rewrite app_nil_r.
  - unfold range_H2Ports in *. simpl. rewrite IH.
    by rewrite <- app_assoc.
Qed.

Lemma range_UnencryptedPorts_app ports openPorts :
  range_UnencryptedPorts ports openPorts
  = openPorts ++ (unencrypted_spec <$> ports).
Proof.
  revert openPorts.
  induction ports as [|port ports IH]; intros openPorts; simpl.
  - by rewrite app_nil_r.
  - unfold range_UnencryptedPorts in *. simpl. rewrite IH.
    by rewrite <- app_assoc.
Qed.

(** The three loops leave the classified ports in [openPorts]. *)
Lemma openPorts_classified options :
  range_UnencryptedPorts (UnencryptedPorts options)
    (range_H2Ports (H2Ports options)
       (range_EncryptedPorts (EncryptedPorts options) []))
  = classified_ports options.
Proof.
  rewrite range_UnencryptedPorts_app, range_H2Ports_app,
    range_EncryptedPorts_app.
  unfold classified_ports. simpl. by rewrite <- app_assoc.
Qed.

(** The loop over the volumes returns when no volume is nil, with one mount
    per entry visited, in the order of the visit, after the mounts it
    started from. *)
Lemma range_Volumes_Return entries volumeMounts :
  Forall (fun entry : string * option Volume => is_Some entry.2) entries ->
  range_Volumes entries volumeMounts
  = Return (volumeMounts ++ omap entry_mount entries).
Proof.
  revert volumeMounts.
  induction entries as [|[mountPath volume] entries IH];
    intros volumeMounts Hvalid.
  - simpl. by rewrite app_nil_r.
  - inversion Hvalid as [|? ? [v Hv] Hrest]; subst. simpl in Hv. subst volume.
    specialize (IH (volumeMounts ++ [mount_of (mountPath, v)]) Hrest).
    rewrite <- app_assoc in IH. exact IH.
Qed.

(** The loop over the volumes panics at a nil volume. *)
Lemma range_Volumes_Panic entries volumeMounts :
  Exists (fun entry : string * option Volume => entry.2 = None) entries ->
  range_Volumes entries volumeMounts = Panic.
Proof.
  revert volumeMounts.
  induction entries as [|[mountPath volume] entries IH];
    intros volumeMounts Hnil.
  - inversion Hnil.
  - destruct volume as [v|]; [|done].
    simpl. apply IH. by inversion Hnil.
Qed.

(** ** The request of CreateSandbox *)

(** With an app, an image and no nil volume, [CreateSandbox] reaches the
    call of [client.SandboxCreate], on the context of the app and with this
    request. *)
Lemma CreateSandbox_request_Return `{GoImpl} `{Collaborators}
    (a : App) (i : Image) (options : SandboxOptions) :
  Volumes_valid options ->
  CreateSandbox_request (Some a) (Some i) (Some options)
  = Return
      (ctx a,
       {| pb.AppId := AppId a;
          pb.SandboxDefinition :=
            {| pb.EntrypointArgs := Command options;
               pb.ImageId := ImageId i;
               pb.TimeoutSecs :=
                 uint32_of_float64 (time.Seconds (Timeout options));
               pb.NetworkAccess_ :=
                 {| pb.NetworkAccessType_ := pb.NetworkAccess_OPEN |};
               pb.Resources_ :=
                 {| pb.MilliCpu :=
                      uint32_of_float64
                        (F64.mul (F64.of_int 1000) (CPU options));
                    pb.MemoryMb := uint32 (Memory options) |};
               pb.VolumeMounts :=
                 match Volumes options with
                 | None => []
                 | Some volumes => omap entry_mount (range_map volumes)
                 end;
               pb.OpenPorts :=
                 if (0 <? length (classified_ports options))%nat
                 then Some {| pb.Ports := classified_ports options |}
                 else None |} |}).
Proof.
  intros Hvalid. unfold CreateSandbox_request. simpl.
  rewrite openPorts_classified.
  unfold Volumes_valid in Hvalid.
  destruct (Volumes options) as [volumes|]; simpl; [|done].
  rewrite range_Volumes_Return; [done|].
  apply Forall_forall. intros [mountPath volume] Hin. simpl.
  apply (Hvalid mountPath).
  apply elem_of_map_to_list. by rewrite <- (range_map_perm volumes).
Qed.

(** A nil [options] stands for the zero value of [SandboxOptions]. *)
Lemma CreateSandbox_request_nil_options `{GoImpl} `{Collaborators}
    (app : option App) (image : option Image) :
  CreateSandbox_request app image None
  = CreateSandbox_request app image (Some SandboxOptions_zero).
Proof. reflexivity. Qed.

(** [CreateSandbox] panics on a nil app, a nil image or a nil volume. *)
Lemma CreateSandbox_request_Panic `{GoImpl} `{Collaborators}
    (app : option App) (image : option Image) (options : SandboxOptions) :
  app = None \/ image = None \/ ~ Volumes_valid options ->
  CreateSandbox_request app image (Some options) = Panic.
Proof.
  intros Hnil. unfold CreateSandbox_request. simpl.
  destruct (Volumes options) as [volumes|] eqn:Hvolumes; simpl.
  - destruct (decide (Forall (fun entry : string * option Volume =>
                                is_Some entry.2) (range_map volumes)))
      as [Hall|Hex].
    + rewrite range_Volumes_Return by done. simpl.
      destruct app as [a|]; [|done]. destruct image as [i|]; [|done].
      destruct Hnil as [?|[?|Hinvalid]]; [done..|].
      exfalso. apply Hinvalid. unfold Volumes_valid. rewrite Hvolumes.
      intros mountPath volume Hlookup.
      rewrite Forall_forall in Hall.
      apply (Hall (mountPath, volume)).
      rewrite (range_map_perm volumes). by apply elem_of_map_to_list.
    + rewrite range_Volumes_Panic; [done|].
      apply not_Forall_Exists in Hex; [|solve_decision].
      eapply Exists_impl; [exact Hex|].
      intros [mountPath [v|]]; simpl; [|done].
      intros Hno. exfalso. apply Hno. by exists v.
  - destruct app as [a|]; [|done]. destruct image as [i|]; [|done].
    destruct Hnil as [?|[?|Hinvalid]]; [done..|].
    exfalso. apply Hinvalid. unfold Volumes_valid. by rewrite Hvolumes.
Qed.

(** [CreateSandbox] issues the call once, and returns the sandbox of the
    identifier answered, or the error of the call as it is. *)
Lemma CreateSandbox_call `{GoImpl} `{Collaborators}
    (app : option App) (image : option Image) (options : option SandboxOptions)
    (c : context_Context) (request : pb.SandboxCreateRequest) :
  CreateSandbox_request app image options = Return (c, request) ->
  CreateSandbox app image options
  = Return
      match client_SandboxCreate c request with
      | (_, Some err) => (None, Some err)
      | (createResp, None) =>
          (Some (newSandbox c (pb.GetSandboxId createResp)), None)
      end.
Proof.
  intros Hrequest. unfold CreateSandbox. rewrite Hrequest. simpl.
  by destruct (client_SandboxCreate c request) as [createResp [err|]].
Qed.

(** ** Ports *)

(** C1. For every three port lists, the port specifications of the compiled
    definition are category-segregated and order-preserving: every encrypted
    port (tunnel type unset, unencrypted false) in input order, then every H2
    port (tunnel type H2, unencrypted false) in input order, then every
    unencrypted port (unencrypted true, tunnel type unset) in input order. *)
Theorem CreateSandbox_ports_segregated `{GoImpl} `{Collaborators}
    (a : App) (i : Image) (options : SandboxOptions) :
  Volumes_valid options ->
  exists request,
    CreateSandbox_request (Some a) (Some i) (Some options)
    = Return (ctx a, request)
    /\ GetPorts (pb.OpenPorts (pb.SandboxDefinition request))
       = (encrypted_spec <$> EncryptedPorts options)
           ++ (h2_spec <$> H2Ports options)
           ++ (unencrypted_spec <$> UnencryptedPorts options).
Proof.
  intros Hvalid. eexists. split.
  - by apply CreateSandbox_request_Return.
  - simpl. fold (classified_ports options).
    by destruct (classified_ports options).
Qed.

(** The example of the specification: encrypted [1; 2], H2 [3] and
    unencrypted [4] compile to (1, enc), (2, enc), (3, h2), (4, plain). *)
Lemma CreateSandbox_ports_segregated_example :
  exists request,
    @CreateSandbox_request GoImpl_map_to_list fresh_server
      (Some app_1) (Some image_1) (Some options_ports)
    = Return (@ctx fresh_server app_1, request)
    /\ GetPorts (pb.OpenPorts (pb.SandboxDefinition request))
       = [ {| pb.Port := 1; pb.Unencrypted := false; pb.TunnelType_ := None |};
           {| pb.Port := 2; pb.Unencrypted := false; pb.TunnelType_ := None |};
           {| pb.Port := 3; pb.Unencrypted := false;
              pb.TunnelType_ := Some pb.TUNNEL_TYPE_H2 |};
           {| pb.Port := 4; pb.Unencrypted := true; pb.TunnelType_ := None |} ].
Proof.
  apply (@CreateSandbox_ports_segregated GoImpl_map_to_list fresh_server
           app_1 image_1 options_ports).
  exact I.
Defined.

(** C2. The port-spec field of the compiled definition is absent exactly
    when the three port lists are empty; when one of them is not, the field
    is present and holds the classified ports.  It is never present and
    empty. *)
Theorem CreateSandbox_ports_absent_iff_empty `{GoImpl} `{Collaborators}
    (a : App) (i : Image) (options : SandboxOptions) :
  Volumes_valid options ->
  exists request,
    CreateSandbox_request (Some a) (Some i) (Some options)
    = Return (ctx a, request)
    /\ (pb.OpenPorts (pb.SandboxDefinition request) = None
        <-> EncryptedPorts options = [] /\ H2Ports options = []
            /\ UnencryptedPorts options = [])
    /\ (~ (EncryptedPorts options = [] /\ H2Ports options = []
           /\ UnencryptedPorts options = []) ->
        pb.OpenPorts (pb.SandboxDefinition request)
        = Some {| pb.Ports := classified_ports options |})
    /\ pb.OpenPorts (pb.SandboxDefinition request)
       <> Some {| pb.Ports := [] |}.
Proof.
  intros Hvalid. eexists. split; [by apply CreateSandbox_request_Return|].
  simpl.
  assert (Hnil : classified_ports options = []
                 <-> EncryptedPorts options = [] /\ H2Ports options = []
                     /\ UnencryptedPorts options = []).
  { unfold classified_ports. split.
    - intros Happ.
      apply app_eq_nil in Happ as [He Happ].
      apply app_eq_nil in Happ as [Hh Hu].
      apply fmap_nil_inv in He. apply fmap_nil_inv in Hh.
      by apply fmap_nil_inv in Hu.
    - by intros (-> & -> & ->). }
  destruct (classified_ports options) as [|spec specs] eqn:Hports; simpl.
  - split; [|split]; [ | |done].
    + split; [intros _; by apply Hnil | done].
    + intros Hnot. exfalso. apply Hnot. by apply Hnil.
  - split; [|split]; [ | done |done].
    split; [done|]. intros Hempty. apply Hnil in Hempty. done.
Qed.

(** With the three lists empty the field is absent. *)
Lemma CreateSandbox_ports_absent_iff_empty_example :
  exists request,
    @CreateSandbox_request GoImpl_map_to_list fresh_server
      (Some app_1) (Some image_1) (Some SandboxOptions_zero)
    = Return (@ctx fresh_server app_1, request)
    /\ (pb.OpenPorts (pb.SandboxDefinition request) = None
        <-> @nil Z = [] /\ @nil Z = [] /\ @nil Z = [])
    /\ (~ (@nil Z = [] /\ @nil Z = [] /\ @nil Z = []) ->
        pb.OpenPorts (pb.SandboxDefinition request)
        = Some {| pb.Ports := [] |})
    /\ pb.OpenPorts (pb.SandboxDefinition request)
       <> Some {| pb.Ports := [] |}.
Proof.
  apply (@CreateSandbox_ports_absent_iff_empty GoImpl_map_to_list
           fresh_server app_1 image_1 SandboxOptions_zero).
  exact I.
Defined.

(** C10. No port and no memory request is rejected or validated: the
    request is issued, every port specification carries its port reduced
    modulo 2^32 and the memory field carries the memory request reduced
    modulo 2^32. *)
Theorem CreateSandbox_ports_memory_wrap `{GoImpl} `{Collaborators}
    (a : App) (i : Image) (options : SandboxOptions) :
  Volumes_valid options ->
  exists request,
    CreateSandbox_request (Some a) (Some i) (Some options)
    = Return (ctx a, request)
    /\ pb.Port <$> GetPorts (pb.OpenPorts (pb.SandboxDefinition request))
       = (fun port => port mod 2 ^ 32)
           <$> (EncryptedPorts options ++ H2Ports options
                  ++ UnencryptedPorts options)
    /\ pb.MemoryMb (pb.Resources_ (pb.SandboxDefinition request))
       = Memory options mod 2 ^ 32.
Proof.
  intros Hvalid. eexists. split; [by apply CreateSandbox_request_Return|].
  simpl. split; [|done].
  replace (GetPorts _) with (classified_ports options)
    by (by destruct (classified_ports options)).
  unfold classified_ports.
  rewrite !fmap_app, <- !list_fmap_compose. done.
Qed.

(** A port of -1 is sent as 4294967295, a port of 2^32 + 443 as 443, a
    memory request of -1 MiB as 4294967295 MiB. *)
Lemma CreateSandbox_ports_memory_wrap_example :
  exists request,
    @CreateSandbox_request GoImpl_map_to_list fresh_server
      (Some app_1) (Some image_1) (Some options_wrapping)
    = Return (@ctx fresh_server app_1, request)
    /\ pb.Port <$> GetPorts (pb.OpenPorts (pb.SandboxDefinition request))
       = [4294967295; 443; 70000]
    /\ pb.MemoryMb (pb.Resources_ (pb.SandboxDefinition request))
       = 4294967295.
Proof.
  apply (@CreateSandbox_ports_memory_wrap GoImpl_map_to_list fresh_server
           app_1 image_1 options_wrapping).
  exact I.
Defined.

(** ** Volumes *)

(** On entries without nil volume, [entry_mount] is [mount_of]. *)
Lemma omap_entry_mount_Some (entries : list (string * Volume)) :
  omap entry_mount (prod_map id Some <$> entries) = mount_of <$> entries.
Proof.
  induction entries as [|[mountPath volume] entries IH]; [done|].
  rewrite !fmap_cons. etrans; [|by rewrite <- IH]. done.
Qed.

(** C7. For every mapping from mount paths to volumes, the compiled
    definition holds exactly one mount per entry of the mapping, with the
    mount path and the volume identifier of the entry, and every mount has
    allowBackgroundCommits true and readOnly false. *)
Theorem CreateSandbox_volume_mounts `{GoImpl} `{Collaborators}
    (a : App) (i : Image) (options : SandboxOptions)
    (volumes : gmap string Volume) :
  Volumes options = Some (Some <$> volumes) ->
  exists request,
    CreateSandbox_request (Some a) (Some i) (Some options)
    = Return (ctx a, request)
    /\ pb.VolumeMounts (pb.SandboxDefinition request)
       ≡ₚ mount_of <$> map_to_list volumes
    /\ length (pb.VolumeMounts (pb.SandboxDefinition request)) = size volumes
    /\ Forall (fun mount => pb.AllowBackgroundCommits mount = true
                            /\ pb.ReadOnly mount = false)
         (pb.VolumeMounts (pb.SandboxDefinition request)).
Proof.
  intros Hvolumes.
  assert (Hvalid : Volumes_valid options).
  { unfold Volumes_valid. rewrite Hvolumes.
    intros mountPath volume. rewrite lookup_fmap.
    destruct (volumes !! mountPath); simpl; [|done].
    intros [= <-]. by eexists. }
  eexists. split; [by apply CreateSandbox_request_Return|].
  simpl. rewrite Hvolumes.
  assert (Hperm : omap entry_mount (range_map (Some <$> volumes))
                  ≡ₚ mount_of <$> map_to_list volumes).
  { rewrite (range_map_perm (Some <$> volumes)), map_to_list_fmap.
    by rewrite omap_entry_mount_Some. }
  split; [exact Hperm|]. split.
  - rewrite Hperm, length_fmap. apply length_map_to_list.
  - rewrite Hperm. apply Forall_fmap, Forall_forall. by intros [? ?] _.
Qed.

(** A nil mapping compiles to no mount. *)
Lemma CreateSandbox_volume_mounts_nil `{GoImpl} `{Collaborators}
    (a : App) (i : Image) (options : SandboxOptions) :
  Volumes options = None ->
  exists request,
    CreateSandbox_request (Some a) (Some i) (Some options)
    = Return (ctx a, request)
    /\ pb.VolumeMounts (pb.SandboxDefinition request) = [].
Proof.
  intros Hvolumes. eexists. split.
  - apply CreateSandbox_request_Return.
    unfold Volumes_valid. by rewrite Hvolumes.
  - simpl. by rewrite Hvolumes.
Qed.

(** The two volumes of [volumes_2] compile to two mounts. *)
Lemma CreateSandbox_volume_mounts_example :
  exists request,
    @CreateSandbox_request GoImpl_map_to_list fresh_server
      (Some app_1) (Some image_1) (Some options_volumes)
    = Return (@ctx fresh_server app_1, request)
    /\ pb.VolumeMounts (pb.SandboxDefinition request)
       ≡ₚ [ {| pb.VolumeId := "vo-2"; pb.MountPath := "/cache";
               pb.AllowBackgroundCommits := true; pb.ReadOnly := false |};
            {| pb.VolumeId := "vo-1"; pb.MountPath := "/data";
               pb.AllowBackgroundCommits := true; pb.ReadOnly := false |} ]
    /\ length (pb.VolumeMounts (pb.SandboxDefinition request)) = 2%nat
    /\ Forall (fun mount => pb.AllowBackgroundCommits mount = true
                            /\ pb.ReadOnly mount = false)
         (pb.VolumeMounts (pb.SandboxDefinition request)).
Proof.
  apply (@CreateSandbox_volume_mounts GoImpl_map_to_list fresh_server
           app_1 image_1 options_volumes volumes_2).
  reflexivity.
Defined.

(** ** AppLookup *)

(** [codes.eqb] decides the equality of codes. *)
Lemma codes_eqb_eq (a b : codes.Code) : codes.eqb a b = true <-> a = b.
Proof. destruct a, b; simpl; split; congruence. Qed.

(** The test of [AppLookup] on the error of the call succeeds exactly when
    the error carries the status [NotFound]. *)
Lemma FromError_NotFound (err : option error) :
  (let '(st, ok) := status.FromError err in
   ok && codes.eqb (status.Code st) codes.NotFound) = true
  <-> exists e, err = Some e /\ status.carried e = Some codes.NotFound.
Proof.
  destruct err as [e|]; simpl.
  - destruct (status.carried e) as [c|] eqn:Hc; simpl.
    + rewrite codes_eqb_eq. split.
      * intros ->. by exists e.
      * intros (e' & [= <-] & Hc'). congruence.
    + split; [done|]. intros (e' & [= <-] & Hc'). congruence.
  - split; [done|]. by intros (e' & ? & _).
Qed.

(** What [AppLookup] returns, by the answer of the call. *)
Lemma AppLookup_cases `{Collaborators}
    (ctx0 ctx1 : context_Context) (name : string) (options : LookupOptions)
    (resp : option pb.AppGetOrCreateResponse) (err : option error) :
  clientContext ctx0 = (ctx1, None) ->
  client_AppGetOrCreate ctx1 (lookup_request name options) = (resp, err) ->
  AppLookup ctx0 name (Some options)
  = match err with
    | Some e =>
        match status.carried e with
        | Some codes.NotFound =>
            (None, Some (NotFoundError (app_not_found name)))
        | _ => (None, Some e)
        end
    | None => (Some {| AppId := pb.GetAppId resp; ctx := ctx1 |}, None)
    end.
Proof.
  intros Hctx Hcall. unfold AppLookup. simpl. rewrite Hctx.
  unfold lookup_request in Hcall. rewrite Hcall.
  destruct err as [e|]; simpl; [|done].
  destruct (status.carried e) as [c|]; simpl; [|done].
  by destruct c.
Qed.

(** A nil [options] stands for the zero value of [LookupOptions]. *)
Lemma AppLookup_nil_options `{Collaborators}
    (ctx0 : context_Context) (name : string) :
  AppLookup ctx0 name None = AppLookup ctx0 name (Some LookupOptions_zero).
Proof. reflexivity. Qed.

(** An error of [clientContext] is returned as it is. *)
Lemma AppLookup_clientContext_error `{Collaborators}
    (ctx0 ctx1 : context_Context) (name : string)
    (options : option LookupOptions) (e : error) :
  clientContext ctx0 = (ctx1, Some e) ->
  AppLookup ctx0 name options = (None, Some e).
Proof. intros Hctx. unfold AppLookup. by rewrite Hctx. Qed.

(** The message of the NotFoundError contains the name. *)
Lemma app_not_found_occurs (name : string) :
  occurs_in name (app_not_found name).
Proof. by exists "app '"%string, "' not found"%string. Qed.

(** C3. For every app name: a lookup without creation to which the transport
    answers with a NotFound status returns a NotFoundError whose message
    contains the name; a lookup with creation on which the transport succeeds
    returns the App of the identifier returned, and no error. *)
Theorem AppLookup_not_found_or_app `{Collaborators}
    (ctx0 ctx1 : context_Context) (name environment : string) :
  clientContext ctx0 = (ctx1, None) ->
  (forall resp e,
      client_AppGetOrCreate ctx1
        (lookup_request name
           {| Environment := environment; CreateIfMissing := false |})
      = (resp, Some e) ->
      status.carried e = Some codes.NotFound ->
      exists message,
        AppLookup ctx0 name
          (Some {| Environment := environment; CreateIfMissing := false |})
        = (None, Some (NotFoundError message))
        /\ occurs_in name message)
  /\ (forall resp,
         client_AppGetOrCreate ctx1
           (lookup_request name
              {| Environment := environment; CreateIfMissing := true |})
         = (resp, None) ->
         AppLookup ctx0 name
           (Some {| Environment := environment; CreateIfMissing := true |})
         = (Some {| AppId := pb.GetAppId resp; ctx := ctx1 |}, None)).
Proof.
  intros Hctx. split.
  - intros resp e Hcall Hstatus. exists (app_not_found name). split.
    + rewrite (AppLookup_cases ctx0 ctx1 name _ resp (Some e) Hctx Hcall).
      by rewrite Hstatus.
    + apply app_not_found_occurs.
  - intros resp Hcall.
    by rewrite (AppLookup_cases ctx0 ctx1 name _ resp None Hctx Hcall).
Qed.

(** On a control plane without apps, looking "demo" up fails with the
    NotFoundError "app 'demo' not found", and looking it up with creation
    returns the app created. *)
Lemma AppLookup_not_found_or_app_example :
  (exists message,
      @AppLookup fresh_server [] "demo"
        (Some {| Environment := "dev"; CreateIfMissing := false |})
      = (None, Some (NotFoundError message))
      /\ occurs_in "demo" message)
  /\ @AppLookup fresh_server [] "demo"
       (Some {| Environment := "dev"; CreateIfMissing := true |})
     = (Some (@Build_App fresh_server "ap-demo" ["x-modal-client"]%string),
        None).
Proof.
  destruct (@AppLookup_not_found_or_app fresh_server
              [] ["x-modal-client"]%string "demo" "dev" eq_refl)
    as [Hmissing Hcreated].
  split.
  - exact (Hmissing None (StatusError codes.NotFound "App not found")
             eq_refl eq_refl).
  - exact (Hcreated _ eq_refl).
Defined.

(** C4, as amended.  [AppLookup] translates one class of errors of the
    call: an error that carries the status NotFound becomes the
    NotFoundError of the app name, whether creation was requested or not;
    every other error of the call is returned as it is. *)
Theorem AppLookup_error_translation `{Collaborators}
    (ctx0 ctx1 : context_Context) (name : string) (options : LookupOptions)
    (resp : option pb.AppGetOrCreateResponse) (e : error) :
  clientContext ctx0 = (ctx1, None) ->
  client_AppGetOrCreate ctx1 (lookup_request name options) = (resp, Some e) ->
  (status.carried e = Some codes.NotFound ->
   AppLookup ctx0 name (Some options)
   = (None, Some (NotFoundError (app_not_found name))))
  /\ (status.carried e <> Some codes.NotFound ->
      AppLookup ctx0 name (Some options) = (None, Some e)).
Proof.
  intros Hctx Hcall.
  rewrite (AppLookup_cases ctx0 ctx1 name options resp (Some e) Hctx Hcall).
  split.
  - by intros ->.
  - intros Hother. destruct (status.carried e) as [c|]; [|done].
    by destruct c.
Qed.

(** A PermissionDenied error of the call comes back as it is. *)
Lemma AppLookup_error_translation_example :
  @AppLookup server_denying [] "demo"
    (Some {| Environment := "dev"; CreateIfMissing := false |})
  = (None, Some (StatusError codes.PermissionDenied "denied")).
Proof.
  apply (@AppLookup_error_translation server_denying
           [] ["x-modal-client"]%string "demo"
           {| Environment := "dev"; CreateIfMissing := false |}
           None (StatusError codes.PermissionDenied "denied")
           eq_refl eq_refl).
  discriminate.
Defined.

(** C4, as stated, fails: the translation does not look at
    [CreateIfMissing].  With creation requested and a transport that answers
    NotFound (here for the environment), [AppLookup] returns the
    NotFoundError of the app. *)
Lemma AppLookup_translates_with_creation :
  @client_AppGetOrCreate server_without_environment
    ["x-modal-client"]%string
    (@lookup_request server_without_environment "demo"
       {| Environment := "dev"; CreateIfMissing := true |})
  = (None, Some (StatusError codes.NotFound "Environment 'dev' not found"))
  /\ @AppLookup server_without_environment [] "demo"
       (Some {| Environment := "dev"; CreateIfMissing := true |})
     = (None, Some (NotFoundError "app 'demo' not found")).
Proof. split; reflexivity. Qed.

(** On a transport that answers NotFound only to requests without creation,
    the translation happens only when creation was not requested. *)
Lemma AppLookup_translation_without_creation `{Collaborators}
    (ctx1 : context_Context) (name : string) (options : LookupOptions)
    (resp : option pb.AppGetOrCreateResponse) (e : error) :
  (forall c request resp' e',
      client_AppGetOrCreate c request = (resp', Some e') ->
      status.carried e' = Some codes.NotFound ->
      pb.ObjectCreationType_ request = pb.OBJECT_CREATION_TYPE_UNSPECIFIED) ->
  client_AppGetOrCreate ctx1 (lookup_request name options) = (resp, Some e) ->
  status.carried e = Some codes.NotFound ->
  CreateIfMissing options = false.
Proof.
  intros Hcontract Hcall Hstatus.
  specialize (Hcontract _ _ _ _ Hcall Hstatus). simpl in Hcontract.
  by destruct (CreateIfMissing options).
Qed.

(** ** The image factories *)

(** C8. [ImageFromAwsEcr] and [ImageFromGcpArtifactRegistry] hand to the
    request an auth configuration with the identifier of the given secret and
    the AWS, respectively GCP, auth type; [ImageFromRegistry] hands no
    configuration at all for a nil secret (or nil options), and the
    static-credentials auth type with the identifier of the secret
    otherwise. *)
Theorem Image_factories_auth `{Collaborators}
    (fromRegistryInternal :
       option App -> string -> option pb.ImageRegistryConfig ->
       outcome (option Image * option error))
    (app : option App) (tag : string) (secret : Secret) :
  ImageFromAwsEcr fromRegistryInternal app tag (Some secret)
  = fromRegistryInternal app tag
      (Some {| pb.RegistryAuthType_ := pb.REGISTRY_AUTH_TYPE_AWS;
               pb.SecretId := SecretId secret |})
  /\ ImageFromGcpArtifactRegistry fromRegistryInternal app tag (Some secret)
     = fromRegistryInternal app tag
         (Some {| pb.RegistryAuthType_ := pb.REGISTRY_AUTH_TYPE_GCP;
                  pb.SecretId := SecretId secret |})
  /\ ImageFromRegistry fromRegistryInternal app tag
       (Some {| ImageFromRegistryOptions_Secret := None |})
     = fromRegistryInternal app tag None
  /\ ImageFromRegistry fromRegistryInternal app tag None
     = fromRegistryInternal app tag None
  /\ ImageFromRegistry fromRegistryInternal app tag
       (Some {| ImageFromRegistryOptions_Secret := Some secret |})
     = fromRegistryInternal app tag
         (Some {| pb.RegistryAuthType_ := pb.REGISTRY_AUTH_TYPE_STATIC_CREDS;
                  pb.SecretId := SecretId secret |}).
Proof. repeat split. Qed.

(** C9, as amended.  The secret of [ImageFromAwsEcr] and of
    [ImageFromGcpArtifactRegistry] is a required argument, of a pointer
    type: with a secret the two functions do not panic before they hand the
    configuration over; with a nil secret, which the type admits, they
    panic. *)
Theorem Image_factories_required_secret `{Collaborators}
    (fromRegistryInternal :
       option App -> string -> option pb.ImageRegistryConfig ->
       outcome (option Image * option error))
    (app : option App) (tag : string) (secret : option Secret) :
  (ImageFromAwsEcr fromRegistryInternal app tag secret = Panic
   <-> secret = None
       \/ exists s, secret = Some s
          /\ fromRegistryInternal app tag
               (Some {| pb.RegistryAuthType_ := pb.REGISTRY_AUTH_TYPE_AWS;
                        pb.SecretId := SecretId s |}) = Panic)
  /\ (ImageFromGcpArtifactRegistry fromRegistryInternal app tag secret = Panic
      <-> secret = None
          \/ exists s, secret = Some s
             /\ fromRegistryInternal app tag
                  (Some {| pb.RegistryAuthType_ := pb.REGISTRY_AUTH_TYPE_GCP;
                           pb.SecretId := SecretId s |}) = Panic).
Proof.
  destruct secret as [s|]; simpl.
  - split; (split;
      [ intros Hpanic; right; by exists s
      | intros [?|(s' & [= <-] & Hpanic)]; done ]).
  - split; (split; [by left | done]).
Qed.

(** C9, as stated, fails: both functions can be called with a nil secret,
    and the call panics. *)
Lemma Image_factories_nil_secret_panics :
  @ImageFromAwsEcr fresh_server (@resolve_any_image fresh_server)
    (Some app_1) "repo/image:tag" None = Panic
  /\ @ImageFromGcpArtifactRegistry fresh_server
       (@resolve_any_image fresh_server)
       (Some app_1) "repo/image:tag" None = Panic.
Proof. split; reflexivity. Qed.

(** With a secret the same calls return. *)
Lemma Image_factories_secret_returns :
  @ImageFromAwsEcr fresh_server (@resolve_any_image fresh_server)
    (Some app_1) "repo/image:tag" (Some secret_1)
  = Return (Some {| ImageId := "im-repo/image:tag" |}, None).
Proof. reflexivity. Qed.

(** ** Rounding to float64 *)

Lemma fexp64_eq e : fexp64 e = Z.max (e - 53) (-1074).
Proof. reflexivity. Qed.

(** The number of binary digits of a positive number. *)
Lemma digits2_pos_size p : digits2_pos p = Pos.size p.
Proof. induction p; simpl; congruence. Qed.

(** A positive number of [d] digits lies from [2^(d-1)] to [2^d]
    (excluded), and [d] is the only such number. *)
Lemma Zdigits2_bounds m :
  0 < m -> 2 ^ (Zdigits2 m - 1) <= m < 2 ^ Zdigits2 m.
Proof.
  destruct m as [|p|p]; try lia. intros _. simpl.
  rewrite digits2_pos_size.
  pose proof (Pos.size_gt p) as Hgt. pose proof (Pos.size_le p) as Hle.
  apply Pos2Z.pos_lt_pos in Hgt. apply Pos2Z.pos_le_pos in Hle.
  rewrite Pos2Z.inj_pow in Hgt, Hle.
  replace (Z.pos (Pos.size p)) with (Z.pos (Pos.size p) - 1 + 1) in Hle at 1
    by lia.
  rewrite Z.pow_add_r in Hle by lia.
  change (Z.pos p~0) with (2 * Z.pos p) in Hle. lia.
Qed.

Lemma Zdigits2_unique m d :
  0 < m -> 2 ^ (d - 1) <= m < 2 ^ d -> Zdigits2 m = d.
Proof.
  intros Hm [Hlo Hhi]. pose proof (Zdigits2_bounds m Hm) as [Hlo' Hhi'].
  assert (0 < Zdigits2 m) by (destruct m; simpl; lia).
  assert (0 < d).
  { destruct (Z.ltb_spec 0 d); [done|].
    assert (2 ^ d <= 1).
    { destruct (Z.eq_dec d 0) as [->|]; [done|].
      rewrite Z.pow_neg_r by lia. lia. }
    lia. }
  destruct (Z.lt_trichotomy (Zdigits2 m) d) as [Hlt|[Heq|Hgt]]; [|done|].
  - assert (2 ^ Zdigits2 m <= 2 ^ (d - 1))
      by (apply Z.pow_le_mono_r; lia). lia.
  - assert (2 ^ d <= 2 ^ (Zdigits2 m - 1))
      by (apply Z.pow_le_mono_r; lia). lia.
Qed.

(** The shifts of [shr]: [n] steps of [shr_1] halve the mantissa [n] times;
    the round bit is the last bit shifted out. *)
Lemma iter_pos_nat {A : Type} (f : A -> A) p x :
  SpecFloat.iter_pos f p x = Nat.iter (Pos.to_nat p) f x.
Proof.
  revert x. induction p as [p IH|p IH|]; intros x;
    cbn [SpecFloat.iter_pos].
  - rewrite !IH, Pos2Nat.inj_xI, <- Nat.iter_add, <- Nat.iter_succ_r.
    f_equal. lia.
  - rewrite !IH, Pos2Nat.inj_xO, <- Nat.iter_add. f_equal. lia.
  - reflexivity.
Qed.

Lemma shr_1_m r : 0 <= shr_m r -> shr_m (shr_1 r) = shr_m r / 2.
Proof.
  destruct r as [m r s]. simpl. intros Hm. rewrite <- Z.div2_div.
  destruct m as [|[p|p|]|p]; try reflexivity. lia.
Qed.

Lemma shr_1_r r : shr_r (shr_1 r) = Z.odd (shr_m r).
Proof. destruct r as [m r s]. by destruct m as [|[p|p|]|[p|p|]]. Qed.

Lemma iter_shr_1_m n r :
  0 <= shr_m r ->
  shr_m (Nat.iter n shr_1 r) = shr_m r / 2 ^ Z.of_nat n.
Proof.
  intros Hm. induction n as [|n IH].
  - simpl. by rewrite Z.div_1_r.
  - rewrite Nat.iter_succ, shr_1_m, IH.
    + rewrite Z.div_div by lia.
      rewrite Nat2Z.inj_succ, Z.pow_succ_r by lia. f_equal. lia.
    + rewrite IH. apply Z.div_pos; lia.
Qed.

Lemma shr_spec r e n :
  0 <= shr_m r ->
  snd (shr r e n) = e + Z.max 0 n
  /\ shr_m (fst (shr r e n)) = shr_m r / 2 ^ Z.max 0 n
  /\ (0 < n -> shr_r (fst (shr r e n)) = Z.odd (shr_m r / 2 ^ (n - 1)))
  /\ (n <= 0 -> fst (shr r e n) = r).
Proof.
  intros Hm. destruct n as [|p|p]; simpl.
  - rewrite Z.div_1_r. split; [lia|]. split; [done|]. split; [lia|done].
  - rewrite iter_pos_nat.
    destruct (Pos.to_nat p) as [|k] eqn:Hk; [lia|].
    split; [done|]. split; [|split; [|lia]].
    + rewrite iter_shr_1_m by done. f_equal. f_equal. lia.
    + intros _. rewrite Nat.iter_succ, shr_1_r, iter_shr_1_m by done.
      f_equal. f_equal. f_equal. lia.
  - rewrite Z.div_1_r. split; [lia|]. split; [done|]. split; [lia|done].
Qed.

Lemma round_nearest_even_bounds m l :
  m <= round_nearest_even m l <= m + 1.
Proof. destruct l as [|[]]; simpl; try lia. destruct (Z.even m); lia. Qed.

Lemma shr_record_of_loc_m m l : shr_m (shr_record_of_loc m l) = m.
Proof. by destruct l as [|[]]. Qed.

(** Rounding a positive mantissa: the first shift brings it to the precision,
    rounding adds at most one (and, from an exact mantissa, at most half a
    unit of the last place), and the second shift renormalises. *)
Lemma binary_round_aux_spec sx mx ex lx :
  0 < mx ->
  let sh1 := Z.max 0 (fexp64 (Zdigits2 mx + ex) - ex) in
  exists m1,
    mx / 2 ^ sh1 <= m1 <= mx / 2 ^ sh1 + 1
    /\ (lx = loc_Exact -> 2 * (m1 * 2 ^ sh1) <= 2 * mx + 2 ^ sh1)
    /\ binary_round_aux F64.prec F64.emax sx mx ex lx
       = finish sx
           (m1 / 2 ^ Z.max 0 (fexp64 (Zdigits2 m1 + (ex + sh1)) - (ex + sh1)))
           (ex + sh1
            + Z.max 0 (fexp64 (Zdigits2 m1 + (ex + sh1)) - (ex + sh1))).
Proof.
  intros Hmx sh1. unfold binary_round_aux, shr_fexp.
  fold (fexp64 (Zdigits2 mx + ex)).
  set (n1 := fexp64 (Zdigits2 mx + ex) - ex) in *.
  destruct (shr_spec (shr_record_of_loc mx lx) ex n1)
    as (He1 & Hm1 & Hr1 & Hid1).
  { rewrite shr_record_of_loc_m. lia. }
  rewrite shr_record_of_loc_m in Hm1, Hr1.
  destruct (shr (shr_record_of_loc mx lx) ex n1) as [mrs' e'].
  simpl in He1, Hm1, Hr1, Hid1. subst e'. fold sh1 in Hm1 |- *.
  set (m1 := round_nearest_even (shr_m mrs') (loc_of_shr_record mrs')).
  assert (Hb : mx / 2 ^ sh1 <= m1 <= mx / 2 ^ sh1 + 1).
  { rewrite <- Hm1. apply round_nearest_even_bounds. }
  assert (Hpow : 0 < 2 ^ sh1) by (apply Z.pow_pos_nonneg; lia).
  assert (Hq : 0 <= mx / 2 ^ sh1) by (apply Z.div_pos; lia).
  exists m1. split; [exact Hb|]. split.
  - intros ->. destruct (Z.ltb_spec 0 n1) as [Hpos|Hnonpos].
    + specialize (Hr1 Hpos).
      assert (Hsh : sh1 = n1) by lia.
      pose proof (Z.mul_div_le mx (2 ^ sh1) Hpow).
      destruct (shr_r mrs') eqn:Hr.
      * symmetry in Hr1.
        assert (Hpow' : 0 < 2 ^ (n1 - 1)) by (apply Z.pow_pos_nonneg; lia).
        pose proof (Z.mul_div_le mx (2 ^ (n1 - 1)) Hpow') as Hle.
        assert (Hdd : mx / 2 ^ (n1 - 1) / 2 = mx / 2 ^ sh1).
        { rewrite Z.div_div by lia. f_equal.
          rewrite Hsh. replace n1 with (n1 - 1 + 1) at 2 by lia.
          rewrite Z.pow_add_r by lia. reflexivity. }
        rewrite Z.odd_spec in Hr1. destruct Hr1 as [u Hu].
        assert (u = mx / 2 ^ sh1).
        { rewrite <- Hdd, Hu. apply (Z.div_unique _ 2 u 1); lia. }
        subst u. rewrite Hu in Hle.
        assert (H2 : 2 ^ sh1 = 2 * 2 ^ (n1 - 1)).
        { rewrite Hsh. replace n1 with (n1 - 1 + 1) at 1 by lia.
          rewrite Z.pow_add_r by lia. lia. }
        nia.
      * assert (Hm : m1 = shr_m mrs').
        { unfold m1. destruct mrs' as [m r s]. simpl in *. subst r.
          by destruct s. }
        rewrite Hm, Hm1. lia.
    + assert (Hm : m1 = mx).
      { unfold m1. rewrite (Hid1 Hnonpos). reflexivity. }
      assert (Hsh : sh1 = 0) by lia.
      rewrite Hm, Hsh, Z.pow_0_r. lia.
  - fold (fexp64 (Zdigits2 m1 + (ex + sh1))).
    set (n2 := fexp64 (Zdigits2 m1 + (ex + sh1)) - (ex + sh1)).
    destruct (shr_spec (shr_record_of_loc m1 loc_Exact) (ex + sh1) n2)
      as (He2 & Hm2 & _ & _).
    { simpl. lia. }
    destruct (shr (shr_record_of_loc m1 loc_Exact) (ex + sh1) n2)
      as [mrs'' e''].
    simpl in He2, Hm2. subst e''. rewrite Hm2. reflexivity.
Qed.

(** Aligning a mantissa to a lower exponent multiplies it by the power of
    two between the exponents. *)
Lemma shl_align_spec mx ex ex' :
  snd (shl_align mx ex ex') = Z.min ex ex'
  /\ Z.pos (fst (shl_align mx ex ex')) = Z.pos mx * 2 ^ (ex - Z.min ex ex').
Proof.
  unfold shl_align. destruct (ex' - ex) as [|d|d] eqn:Hd; simpl.
  - replace (Z.min ex ex') with ex by lia. rewrite Z.sub_diag. lia.
  - replace (Z.min ex ex') with ex by lia. rewrite Z.sub_diag. lia.
  - replace (Z.min ex ex') with ex' by lia. split; [done|].
    fold (shift_pos d mx). rewrite shift_pos_correct, Z.pow_pos_fold.
    replace (ex - ex') with (Z.pos d) by lia. lia.
Qed.

(** A positive mantissa at an exponent in range finishes as a finite
    float. *)
Lemma finish_finite sx m e :
  0 < m -> e <= 971 -> finish sx m e = S754_finite sx (Z.to_pos m) e.
Proof.
  intros Hm He. destruct m as [|p|p]; try lia. simpl.
  destruct (Z.leb_spec e (F64.emax - F64.prec)) as [_|Hgt]; [done|].
  unfold F64.emax, F64.prec in Hgt. lia.
Qed.

(** A mantissa that already fits the precision at its exponent is left as
    it is. *)
Lemma binary_round_aux_fits sx mx ex :
  0 < mx -> fexp64 (Zdigits2 mx + ex) <= ex -> ex <= 971 ->
  binary_round_aux F64.prec F64.emax sx mx ex loc_Exact
  = S754_finite sx (Z.to_pos mx) ex.
Proof.
  intros Hmx Hfits Hex.
  destruct (binary_round_aux_spec sx mx ex loc_Exact Hmx)
    as (m1 & Hb & Hexact & ->).
  specialize (Hexact eq_refl).
  replace (Z.max 0 (fexp64 (Zdigits2 mx + ex) - ex)) with 0 in * by lia.
  rewrite Z.pow_0_r, Z.div_1_r in *.
  assert (m1 = mx) by lia. subst m1.
  rewrite Z.add_0_r.
  replace (Z.max 0 (fexp64 (Zdigits2 mx + ex) - ex)) with 0 by lia.
  rewrite Z.pow_0_r, Z.div_1_r, Z.add_0_r.
  by apply finish_finite.
Qed.

(** [binary_round] aligns the mantissa, then rounds. *)
Lemma binary_round_unfold sx mx ex :
  binary_round F64.prec F64.emax sx mx ex
  = binary_round_aux F64.prec F64.emax sx
      (Z.pos mx * 2 ^ (ex - Z.min ex (fexp64 (Z.pos (digits2_pos mx) + ex))))
      (Z.min ex (fexp64 (Z.pos (digits2_pos mx) + ex))) loc_Exact.
Proof.
  unfold binary_round. fold (fexp64 (Z.pos (digits2_pos mx) + ex)).
  destruct (shl_align_spec mx ex (fexp64 (Z.pos (digits2_pos mx) + ex)))
    as [He Hm].
  destruct (shl_align mx ex (fexp64 (Z.pos (digits2_pos mx) + ex)))
    as [mz ez].
  simpl in He, Hm. subst ez. by rewrite Hm.
Qed.

Lemma Zdigits2_pos m : 0 < m -> 0 < Zdigits2 m.
Proof. destruct m; simpl; lia. Qed.

(** A positive integer of at most 53 bits, shifted to 53 bits. *)
Lemma mantissa_53 z :
  0 < z -> Zdigits2 z <= 53 ->
  2 ^ 52 <= z * 2 ^ (53 - Zdigits2 z) < 2 ^ 53.
Proof.
  intros Hpos Hd53.
  pose proof (Zdigits2_bounds z Hpos) as [Hlo Hhi].
  pose proof (Zdigits2_pos z Hpos) as Hd.
  set (d := Zdigits2 z) in *.
  assert (2 ^ 52 = 2 ^ (d - 1) * 2 ^ (53 - d)) as ->
      by (rewrite <- Z.pow_add_r by lia; f_equal; lia).
  assert (2 ^ 53 = 2 ^ d * 2 ^ (53 - d)) as ->
      by (rewrite <- Z.pow_add_r by lia; f_equal; lia).
  assert (0 < 2 ^ (53 - d)) by (apply Z.pow_pos_nonneg; lia).
  nia.
Qed.

(** The float64 of a positive integer below 2^53 is that integer: the
    mantissa is the integer shifted to 53 bits. *)
Lemma of_int_pos z :
  0 < z < 2 ^ 53 ->
  exists m,
    F64.of_int z = S754_finite false m (Zdigits2 z - 53)
    /\ Z.pos m = z * 2 ^ (53 - Zdigits2 z).
Proof.
  intros [Hpos Hlt].
  pose proof (Zdigits2_bounds z Hpos) as [Hlo Hhi].
  pose proof (Zdigits2_pos z Hpos) as Hd.
  assert (Hd53 : Zdigits2 z <= 53).
  { destruct (Z.leb_spec (Zdigits2 z) 53); [done|].
    assert (2 ^ 53 <= 2 ^ (Zdigits2 z - 1))
      by (apply Z.pow_le_mono_r; lia). lia. }
  destruct z as [|p|p]; try lia.
  unfold F64.of_int, binary_normalize. rewrite binary_round_unfold.
  change (Z.pos (digits2_pos p)) with (Zdigits2 (Z.pos p)) in *.
  set (d := Zdigits2 (Z.pos p)) in *.
  rewrite Z.add_0_r.
  assert (Hf : fexp64 d = d - 53) by (rewrite fexp64_eq; lia).
  rewrite Hf. replace (Z.min 0 (d - 53)) with (d - 53) by lia.
  replace (0 - (d - 53)) with (53 - d) by lia.
  assert (Hmz : 2 ^ 52 <= Z.pos p * 2 ^ (53 - d) < 2 ^ 53)
    by (apply mantissa_53; lia).
  assert (Hdz : Zdigits2 (Z.pos p * 2 ^ (53 - d)) = 53).
  { apply Zdigits2_unique; [lia|]. exact Hmz. }
  rewrite binary_round_aux_fits.
  - eexists. split; [reflexivity|]. rewrite Z2Pos.id; lia.
  - lia.
  - rewrite Hdz, fexp64_eq. lia.
  - lia.
Qed.

(** The constant 1e9. *)
Lemma of_int_1e9 :
  F64.of_int 1000000000 = S754_finite false 8388608000000000 (-23).
Proof. reflexivity. Qed.

(** The digits of a number between two powers of two. *)
Lemma Zdigits2_range m lo hi :
  0 < m -> 2 ^ lo <= m < 2 ^ hi -> 0 <= lo -> lo < Zdigits2 m <= hi.
Proof.
  intros Hm [Hlo Hhi] H0.
  pose proof (Zdigits2_bounds m Hm) as [Hlo' Hhi'].
  pose proof (Zdigits2_pos m Hm).
  split.
  - destruct (Z.ltb_spec lo (Zdigits2 m)); [done|].
    assert (2 ^ Zdigits2 m <= 2 ^ lo) by (apply Z.pow_le_mono_r; lia). lia.
  - destruct (Z.leb_spec (Zdigits2 m) hi); [done|].
    assert (2 ^ hi <= 2 ^ (Zdigits2 m - 1))
      by (apply Z.pow_le_mono_r; lia). lia.
Qed.

(** The quotient of a count of nanoseconds below one second by 1e9: a
    positive float below 1 - 2^-30. *)
Lemma div_nsec n :
  0 < n < 1000000000 ->
  exists mq eq,
    F64.div (F64.of_int n) (F64.of_int 1000000000) = S754_finite false mq eq
    /\ eq <= 0
    /\ Z.pos mq * 2 ^ 30 < (2 ^ 30 - 1) * 2 ^ (- eq).
Proof.
  intros [Hpos Hlt].
  destruct (of_int_pos n) as (m1 & Hn & Hm1); [lia|].
  destruct (Zdigits2_range n 0 30 Hpos) as [Hk1 Hk30]; [lia|lia|].
  pose proof (Zdigits2_bounds n Hpos) as [Hnlo Hnhi].
  set (k := Zdigits2 n) in *.
  unfold F64.div. rewrite Hn, of_int_1e9. unfold SFdiv, SFdiv_core_binary.
  assert (Hd1 : Zdigits2 (Z.pos m1) = 53).
  { apply Zdigits2_unique; [lia|]. rewrite Hm1. change (53 - 1) with 52.
    apply mantissa_53; lia. }
  rewrite Hd1.
  change (Zdigits2 (Z.pos 8388608000000000)) with 53.
  fold (fexp64 (53 + (k - 53) - (53 + -23))).
  replace (Z.min (fexp64 (53 + (k - 53) - (53 + -23))) (k - 53 - -23))
    with (k - 83) by (rewrite fexp64_eq; lia).
  replace (k - 53 - -23 - (k - 83)) with 53 by lia.
  rewrite Z.shiftl_mul_pow2 by lia.
  set (X := 2 ^ (83 - k)).
  assert (HX : 2 ^ 53 <= X) by (apply Z.pow_le_mono_r; lia).
  assert (HnX : 2 ^ 82 <= n * X < 2 ^ 83).
  { assert (2 ^ 82 = 2 ^ (k - 1) * X) as ->
        by (unfold X; rewrite <- Z.pow_add_r by lia; f_equal; lia).
    assert (2 ^ 83 = 2 ^ k * X) as ->
        by (unfold X; rewrite <- Z.pow_add_r by lia; f_equal; lia).
    nia. }
  assert (Hnum : Z.pos m1 * 2 ^ 53 = n * X * 2 ^ 23).
  { rewrite Hm1. unfold X.
    replace (83 - k) with (53 - k + 30) by lia.
    rewrite Z.pow_add_r by lia. lia. }
  assert (Hqq : Z.pos m1 * 2 ^ 53 / 8388608000000000 = n * X / 1000000000).
  { rewrite Hnum. change 8388608000000000 with (1000000000 * 2 ^ 23).
    apply Z.div_mul_cancel_r; lia. }
  assert (Hdiv : fst (Z.div_eucl (Z.pos m1 * 2 ^ 53) 8388608000000000)
                 = n * X / 1000000000) by exact Hqq.
  destruct (Z.div_eucl (Z.pos m1 * 2 ^ 53) 8388608000000000) as [qq r].
  simpl in Hdiv. subst qq. set (qq := n * X / 1000000000).
  assert (Hq1 : 1000000000 * qq <= n * X)
    by (apply Z.mul_div_le; lia).
  assert (Hq2 : n * X < 1000000000 * (qq + 1)).
  { unfold qq. pose proof (Z.mul_succ_div_gt (n * X) 1000000000). lia. }
  assert (HnX' : n * X <= 999999999 * X) by nia.
  assert (Hqq_range : 2 ^ 52 <= qq < 2 ^ 54) by lia.
  destruct (Zdigits2_range qq 52 54) as [Hdq1 Hdq2]; [lia..|].
  destruct (binary_round_aux_spec (xorb false false) qq (k - 83)
              (new_location 8388608000000000 r)) as (m' & Hb & _ & ->);
    [lia|].
  set (sh1 := Z.max 0 (fexp64 (Zdigits2 qq + (k - 83)) - (k - 83))) in *.
  assert (Hsh1 : sh1 = Zdigits2 qq - 53)
    by (unfold sh1; rewrite fexp64_eq; lia).
  assert (Hqb : 2 ^ (Zdigits2 qq - 1) <= qq < 2 ^ Zdigits2 qq)
    by (apply Zdigits2_bounds; lia).
  assert (Hm' : 2 ^ 52 <= m' <= 2 ^ 53).
  { assert (Hcase : sh1 = 0 \/ sh1 = 1) by lia.
    destruct Hcase as [H0|H1].
    - rewrite H0 in Hb. rewrite Z.pow_0_r, Z.div_1_r in Hb.
      replace (Zdigits2 qq) with 53 in Hqb by lia. lia.
    - rewrite H1 in Hb. change (2 ^ 1) with 2 in Hb.
      replace (Zdigits2 qq) with 54 in Hqb by lia.
      change (54 - 1) with 53 in Hqb.
      assert (2 ^ 52 <= qq / 2 < 2 ^ 53).
      { split; [apply Z.div_le_lower_bound; lia
               |apply Z.div_lt_upper_bound; lia]. }
      lia. }
  destruct (Zdigits2_range m' 52 54) as [Hdm1 Hdm2]; [lia..|].
  set (sh2 := Z.max 0 (fexp64 (Zdigits2 m' + (k - 83 + sh1))
                       - (k - 83 + sh1))) in *.
  assert (Hsh2 : sh2 = Zdigits2 m' - 53)
    by (unfold sh2; rewrite fexp64_eq; lia).
  assert (Hmq : 2 ^ 51 <= m' / 2 ^ sh2 /\ 2 ^ sh2 * (m' / 2 ^ sh2) <= m').
  { assert (Hcase : sh2 = 0 \/ sh2 = 1) by lia.
    destruct Hcase as [H0|H1].
    - rewrite H0, Z.pow_0_r, Z.div_1_r. lia.
    - rewrite H1. change (2 ^ 1) with 2. split.
      + apply Z.div_le_lower_bound; lia.
      + apply Z.mul_div_le; lia. }
  rewrite finish_finite by lia.
  eexists _, _. split; [reflexivity|]. split; [lia|].
  rewrite Z2Pos.id by lia.
  assert (HY : X = 2 ^ (sh1 + sh2) * 2 ^ (- (k - 83 + sh1 + sh2))).
  { unfold X. rewrite <- Z.pow_add_r by lia. f_equal. lia. }
  set (Y := 2 ^ (- (k - 83 + sh1 + sh2))) in *.
  set (mq := m' / 2 ^ sh2) in *.
  assert (Hb' : 2 ^ sh1 * m' <= qq + 2 ^ sh1).
  { pose proof (Z.mul_div_le qq (2 ^ sh1)) as Hle.
    assert (0 < 2 ^ sh1) by (apply Z.pow_pos_nonneg; lia).
    specialize (Hle ltac:(lia)). nia. }
  assert (Hcase1 : sh1 = 0 \/ sh1 = 1) by lia.
  assert (Hcase2 : sh2 = 0 \/ sh2 = 1) by lia.
  destruct Hmq as [_ Hmq].
  destruct Hcase1 as [E1|E1], Hcase2 as [E2|E2];
    rewrite E1, E2 in *; simpl Z.add in *;
    change (2 ^ 0) with 1 in *; change (2 ^ 1) with 2 in *;
    change (2 ^ 2) with 4 in *; lia.
Qed.

(** [binary_normalize] on a positive mantissa. *)
Lemma binary_normalize_pos M e :
  0 < M ->
  binary_normalize F64.prec F64.emax M e false
  = binary_round_aux F64.prec F64.emax false
      (M * 2 ^ (e - Z.min e (fexp64 (Zdigits2 M + e))))
      (Z.min e (fexp64 (Zdigits2 M + e))) loc_Exact.
Proof.
  intros HM. destruct M as [|p|p]; try lia.
  unfold binary_normalize. apply binary_round_unfold.
Qed.

(** The integer part of the float64 of a positive integer below 2^53. *)
Lemma trunc_of_int_pos z :
  0 < z < 2 ^ 53 -> F64.trunc (F64.of_int z) = Some z.
Proof.
  intros Hz. destruct (of_int_pos z Hz) as (m & -> & Hm).
  destruct (Zdigits2_range z 0 53) as [Hd0 Hd53]; [lia..|].
  simpl. f_equal. rewrite Z.shiftl_div_pow2 by lia.
  rewrite Hm. replace (- (Zdigits2 z - 53)) with (53 - Zdigits2 z) by lia.
  apply Z.div_mul. apply Z.pow_nonzero; lia.
Qed.

(** Half a unit in the last place above a sum whose fraction is below
    1 - 2^-30 stays below the next whole number. *)
Lemma round_below_next (x s t b u : Z) :
  2 * x <= 2 * (s + b) + u ->
  b * 2 ^ 30 < (2 ^ 30 - 1) * t ->
  u * 2 ^ 29 <= t ->
  x < s + t.
Proof. lia. Qed.

(** Adding a fraction below 1 - 2^-30 to a whole number of seconds below
    2^24 does not reach the next whole number. *)
Lemma trunc_add_fraction sec mq eq :
  0 < sec < 2 ^ 24 ->
  eq <= 0 ->
  Z.pos mq * 2 ^ 30 < (2 ^ 30 - 1) * 2 ^ (- eq) ->
  F64.trunc (F64.add (F64.of_int sec) (S754_finite false mq eq)) = Some sec.
Proof.
  intros [Hpos Hlt] Heq Hq.
  destruct (of_int_pos sec) as (ms & Hs & Hms); [lia|].
  destruct (Zdigits2_range sec 0 24 Hpos) as [Hk1 Hk24]; [lia|lia|].
  assert (Hms_range : 2 ^ 52 <= Z.pos ms < 2 ^ 53)
    by (rewrite Hms; apply mantissa_53; lia).
  set (es := Zdigits2 sec - 53) in *.
  unfold F64.add. rewrite Hs. unfold SFadd, cond_Zopp.
  set (ez := Z.min es eq).
  destruct (shl_align_spec ms es ez) as [_ HA].
  destruct (shl_align_spec mq eq ez) as [_ HB].
  replace (Z.min es ez) with ez in HA by lia.
  replace (Z.min eq ez) with ez in HB by lia.
  rewrite HA, HB.
  set (a := es - ez) in *. set (b := eq - ez) in *.
  set (T := 2 ^ (- ez)).
  assert (HT : T = 2 ^ (- eq) * 2 ^ b)
    by (unfold T, b; rewrite <- Z.pow_add_r by lia; f_equal; lia).
  assert (HsT : Z.pos ms * 2 ^ a = sec * T).
  { rewrite Hms. unfold T, a. rewrite <- Z.mul_assoc. f_equal.
    rewrite <- Z.pow_add_r by lia. f_equal. lia. }
  assert (Hpa : 0 < 2 ^ a) by (apply Z.pow_pos_nonneg; lia).
  assert (Hpb : 0 < 2 ^ b) by (apply Z.pow_pos_nonneg; lia).
  set (B := Z.pos mq * 2 ^ b) in *.
  assert (HB0 : 0 < B) by (unfold B; lia).
  assert (HBT : B * 2 ^ 30 < (2 ^ 30 - 1) * T).
  { unfold B. rewrite HT. nia. }
  rewrite HsT.
  set (M := sec * T + B).
  assert (HT0 : 0 < T) by (apply Z.pow_pos_nonneg; lia).
  assert (HM0 : 0 < M) by (unfold M; nia).
  assert (HMlo : 2 ^ (52 + a) <= M).
  { rewrite Z.pow_add_r by lia. unfold M. rewrite <- HsT. nia. }
  assert (HMhi : M < 2 ^ (24 - ez)).
  { replace (24 - ez) with (24 + - ez) by lia.
    rewrite Z.pow_add_r by lia. fold T. unfold M. nia. }
  destruct (Zdigits2_range M (52 + a) (24 - ez) HM0) as [HdM1 HdM2];
    [lia|lia|].
  pose proof (Zdigits2_bounds M HM0) as [HMb1 HMb2].
  rewrite binary_normalize_pos by done.
  set (dM := Zdigits2 M) in *.
  assert (He1 : fexp64 (dM + ez) = dM + ez - 53)
    by (rewrite fexp64_eq; lia).
  rewrite He1. set (e1 := dM + ez - 53) in *.
  replace (Z.min ez e1) with ez by lia.
  rewrite Z.sub_diag, Z.pow_0_r, Z.mul_1_r.
  destruct (binary_round_aux_spec false M ez loc_Exact HM0)
    as (m1 & Hb & Hexact & ->).
  specialize (Hexact eq_refl). fold dM in Hb, Hexact |- *.
  rewrite He1 in *. fold e1 in Hb, Hexact |- *.
  replace (Z.max 0 (e1 - ez)) with (e1 - ez) in * by lia.
  set (sh1 := e1 - ez) in *.
  replace (ez + sh1) with e1 by lia.
  set (S1 := 2 ^ sh1) in *.
  assert (HS1 : 0 < S1) by (apply Z.pow_pos_nonneg; lia).
  set (P := 2 ^ (- e1)).
  assert (HP : 2 ^ 29 <= P) by (apply Z.pow_le_mono_r; lia).
  assert (HTP : T = S1 * P)
    by (unfold T, S1, P; rewrite <- Z.pow_add_r by lia; f_equal; lia).
  assert (HMS : 2 ^ 52 * S1 <= M < 2 ^ 53 * S1).
  { unfold S1. rewrite <- !Z.pow_add_r by lia.
    replace (52 + sh1) with (dM - 1) by lia.
    replace (53 + sh1) with dM by lia. lia. }
  assert (Hm1 : 2 ^ 52 <= m1 <= 2 ^ 53).
  { assert (2 ^ 52 <= M / S1 < 2 ^ 53).
    { split; [apply Z.div_le_lower_bound; lia
             |apply Z.div_lt_upper_bound; lia]. }
    lia. }
  destruct (Zdigits2_range m1 52 54) as [Hd1 Hd2]; [lia..|].
  set (sh2 := Z.max 0 (fexp64 (Zdigits2 m1 + e1) - e1)).
  assert (Hsh2 : sh2 = 0 \/ sh2 = 1)
    by (unfold sh2; rewrite fexp64_eq; lia).
  assert (Hpsh2 : 0 < 2 ^ sh2) by (apply Z.pow_pos_nonneg; lia).
  assert (Hmf : 0 < m1 / 2 ^ sh2).
  { apply Z.div_str_pos. destruct Hsh2 as [->| ->]; simpl; lia. }
  rewrite finish_finite by lia.
  simpl. f_equal. rewrite Z2Pos.id by lia.
  rewrite Z.shiftl_div_pow2 by lia.
  rewrite Z.div_div by (try apply Z.pow_pos_nonneg; lia).
  rewrite <- Z.pow_add_r by lia.
  replace (sh2 + - (e1 + sh2)) with (- e1) by lia. fold P.
  assert (Hlow : sec * P <= m1).
  { assert (sec * P <= M / S1); [|lia].
    apply Z.div_le_lower_bound; [lia|]. unfold M. rewrite HTP. nia. }
  assert (Hup : m1 < (sec + 1) * P).
  { assert (HSP : S1 * 2 ^ 29 <= T)
      by (rewrite HTP; apply Z.mul_le_mono_nonneg_l; lia).
    apply (Z.mul_lt_mono_pos_r S1); [lia|].
    replace ((sec + 1) * P * S1) with (sec * T + T) by (rewrite HTP; ring).
    exact (round_below_next _ _ _ _ _ Hexact HBT HSP). }
  symmetry. apply (Z.div_unique_pos m1 P sec (m1 - sec * P)); lia.
Qed.

(** The whole seconds of a duration from 0 to 2^24 seconds (excluded), read
    through [Seconds], are its floor in seconds. *)
Lemma trunc_Seconds d :
  0 <= d < 2 ^ 24 * 1000000000 ->
  F64.trunc (time.Seconds d) = Some (d / 1000000000).
Proof.
  intros [Hd0 Hd1]. unfold time.Seconds, time.Second.
  rewrite Z.quot_div_nonneg, Z.rem_mod_nonneg by lia.
  pose proof (Z.mod_pos_bound d 1000000000 ltac:(lia)) as Hnsec.
  assert (Hsec : 0 <= d / 1000000000 < 2 ^ 24).
  { split; [apply Z.div_pos; lia|apply Z.div_lt_upper_bound; lia]. }
  set (sec := d / 1000000000) in *. set (nsec := d mod 1000000000) in *.
  destruct (Z.eq_dec nsec 0) as [Hn|Hn].
  - rewrite Hn. change (F64.div (F64.of_int 0) (F64.of_int 1000000000))
      with (S754_zero false).
    destruct (Z.eq_dec sec 0) as [Hs|Hs].
    + by rewrite Hs.
    + destruct (of_int_pos sec) as (ms & Hms & Hval); [lia|].
      rewrite <- (trunc_of_int_pos sec) by lia.
      rewrite Hms. reflexivity.
  - destruct (div_nsec nsec) as (mq & eq & -> & Heq & Hq); [lia|].
    destruct (Z.eq_dec sec 0) as [Hs|Hs].
    + rewrite Hs. simpl. f_equal.
      rewrite Z.shiftl_div_pow2 by lia. apply Z.div_small.
      assert (0 < 2 ^ (- eq)) by (apply Z.pow_pos_nonneg; lia). lia.
    + apply trunc_add_fraction; [lia|done|done].
Qed.

(** ** Conversions of a float64 to uint32 *)

(** A [uint32] holds a number from 0 to 2^32 - 1, whatever the
    implementation does with a float64 that does not fit. *)
Lemma uint32_of_float64_range `{GoImpl} (f : F64.t) :
  0 <= uint32_of_float64 f < 2 ^ 32.
Proof.
  unfold uint32_of_float64, uint32.
  destruct (F64.trunc f) as [z|].
  - destruct (Z.leb_spec 0 z), (Z.ltb_spec z (2 ^ 32)); simpl;
      try lia; apply Z.mod_pos_bound; lia.
  - apply Z.mod_pos_bound; lia.
Qed.

(** A float64 whose integer part fits a [uint32] converts to it. *)
Lemma uint32_of_float64_trunc `{GoImpl} (f : F64.t) (z : Z) :
  F64.trunc f = Some z -> 0 <= z < 2 ^ 32 -> uint32_of_float64 f = z.
Proof.
  intros Hf [H0 H1]. unfold uint32_of_float64. rewrite Hf.
  destruct (Z.leb_spec 0 z), (Z.ltb_spec z (2 ^ 32)); simpl; lia.
Qed.

(** ** Timeout *)

(** C5, as amended.  For every timeout from 0 to 2^24 seconds (excluded),
    the timeout field of the compiled definition is the floor of the timeout
    in seconds. *)
Theorem CreateSandbox_timeout_floor `{GoImpl} `{Collaborators}
    (a : App) (i : Image) (options : SandboxOptions) :
  Volumes_valid options ->
  0 <= Timeout options < 2 ^ 24 * time.Second ->
  exists request,
    CreateSandbox_request (Some a) (Some i) (Some options)
    = Return (ctx a, request)
    /\ pb.TimeoutSecs (pb.SandboxDefinition request)
       = Timeout options / time.Second.
Proof.
  intros Hvalid Hrange. eexists. split.
  - by apply CreateSandbox_request_Return.
  - simpl. apply uint32_of_float64_trunc.
    + by apply trunc_Seconds.
    + unfold time.Second in *. split.
      * apply Z.div_pos; lia.
      * apply Z.div_lt_upper_bound; lia.
Qed.

(** A timeout of 90.7 seconds compiles to 90. *)
Lemma CreateSandbox_timeout_floor_example :
  exists request,
    @CreateSandbox_request GoImpl_map_to_list fresh_server
      (Some app_1) (Some image_1) (Some (options_timeout timeout_90_7s))
    = Return (@ctx fresh_server app_1, request)
    /\ pb.TimeoutSecs (pb.SandboxDefinition request) = 90.
Proof.
  apply (@CreateSandbox_timeout_floor GoImpl_map_to_list fresh_server
           app_1 image_1 (options_timeout timeout_90_7s)).
  - exact I.
  - unfold timeout_90_7s, time.Second. simpl. lia.
Defined.

(** A timeout of 1.9 seconds compiles to 1. *)
Lemma CreateSandbox_timeout_1_9s :
  exists request,
    @CreateSandbox_request GoImpl_map_to_list fresh_server
      (Some app_1) (Some image_1) (Some (options_timeout timeout_1_9s))
    = Return (@ctx fresh_server app_1, request)
    /\ pb.TimeoutSecs (pb.SandboxDefinition request) = 1.
Proof. eexists. split; reflexivity. Qed.

(** A timeout of a whole number of seconds below 2^32 compiles to that
    number. *)
Lemma CreateSandbox_timeout_whole_seconds `{GoImpl} `{Collaborators}
    (a : App) (i : Image) (options : SandboxOptions) (seconds : Z) :
  Volumes_valid options ->
  0 <= seconds < 2 ^ 32 ->
  Timeout options = seconds * time.Second ->
  exists request,
    CreateSandbox_request (Some a) (Some i) (Some options)
    = Return (ctx a, request)
    /\ pb.TimeoutSecs (pb.SandboxDefinition request) = seconds.
Proof.
  intros Hvalid Hrange Htimeout. eexists. split.
  - by apply CreateSandbox_request_Return.
  - simpl. rewrite Htimeout. apply uint32_of_float64_trunc; [|done].
    unfold time.Seconds, time.Second.
    rewrite Z.quot_div_nonneg, Z.rem_mod_nonneg by lia.
    rewrite Z.div_mul, Z.mod_mul by lia.
    change (F64.div (F64.of_int 0) (F64.of_int 1000000000))
      with (S754_zero false).
    destruct (Z.eq_dec seconds 0) as [->|Hs]; [done|].
    destruct (of_int_pos seconds) as (ms & Hms & Hval); [lia|].
    rewrite <- (trunc_of_int_pos seconds) by lia.
    by rewrite Hms.
Qed.

(** C5, as stated, fails.  A timeout of 2^24 seconds and 999999999
    nanoseconds compiles to 2^24 + 1 seconds, one more than its floor: the
    float64 sum of [Seconds] rounds up to the next whole number.  A timeout
    of minus half a second compiles to 0, not to its floor -1. *)
Lemma CreateSandbox_timeout_not_floor :
  (exists request,
      @CreateSandbox_request GoImpl_map_to_list fresh_server
        (Some app_1) (Some image_1) (Some (options_timeout timeout_194_days))
      = Return (@ctx fresh_server app_1, request)
      /\ pb.TimeoutSecs (pb.SandboxDefinition request) = 16777217
      /\ timeout_194_days / time.Second = 16777216)
  /\ (exists request,
         @CreateSandbox_request GoImpl_map_to_list fresh_server
           (Some app_1) (Some image_1) (Some (options_timeout timeout_negative))
         = Return (@ctx fresh_server app_1, request)
         /\ pb.TimeoutSecs (pb.SandboxDefinition request) = 0
         /\ timeout_negative / time.Second = -1).
Proof. split; eexists; repeat split. Qed.

(** The two values do not depend on the implementation. *)
Lemma uint32_of_Seconds_not_floor `{GoImpl} :
  uint32_of_float64 (time.Seconds timeout_194_days) = 16777217
  /\ uint32_of_float64 (time.Seconds timeout_negative) = 0.
Proof. split; reflexivity. Qed.

(** ** Resources *)

(** The constant 1000. *)
Lemma of_int_1000 :
  F64.of_int 1000 = S754_finite false 8796093022208000 (-43).
Proof. reflexivity. Qed.

(** On a float that is not negative the integer part is the floor. *)
Lemma trunc_finish_false m e :
  F64.trunc (finish false m e) = F64.floor (finish false m e).
Proof.
  destruct m as [|p|p]; simpl; try done.
  by destruct (e <=? F64.emax - F64.prec).
Qed.

(** For a CPU request that is not negative, the integer part of the product
    by 1000 is its floor. *)
Lemma trunc_mul_1000 (c : F64.t) :
  F64.leb (S754_zero false) c = true ->
  F64.trunc (F64.mul (F64.of_int 1000) c)
  = F64.floor (F64.mul (F64.of_int 1000) c).
Proof.
  intros Hc. rewrite of_int_1000.
  destruct c as [s|s| |s m e]; try done.
  destruct s; [done|].
  unfold F64.mul, SFmul.
  destruct (binary_round_aux_spec (xorb false false)
              (Z.pos (8796093022208000 * m)) (-43 + e) loc_Exact)
    as (m1 & _ & _ & ->); [lia|].
  apply trunc_finish_false.
Qed.

(** The floor of the product of a CPU request that is not negative is not
    negative. *)
Lemma floor_nonneg (c : F64.t) (n : Z) :
  F64.leb (S754_zero false) c = true ->
  F64.floor (F64.mul (F64.of_int 1000) c) = Some n -> 0 <= n.
Proof.
  intros Hc. rewrite of_int_1000.
  destruct c as [s|s| |s m e]; try done.
  - simpl. intros [= <-]. done.
  - destruct s; [done|].
    unfold F64.mul, SFmul.
    destruct (binary_round_aux_spec (xorb false false)
                (Z.pos (8796093022208000 * m)) (-43 + e) loc_Exact)
      as (m1 & _ & _ & ->); [lia|].
    simpl xorb. unfold finish.
    match goal with |- context [match ?x with _ => _ end] => destruct x end;
      simpl; try done.
    + intros [= <-]. done.
    + match goal with |- context [if ?b then _ else _] => destruct b end;
        simpl; [|done].
      intros [= <-]. apply Z.shiftl_nonneg. lia.
Qed.

(** C6, as amended.  For every CPU request [c] that is not negative and
    whose float64 product by 1000 has a floor below 2^32, the milli-CPU
    field of the compiled definition is that floor; the memory field is the
    memory request modulo 2^32, the request itself when it is from 0 to
    2^32 - 1. *)
Theorem CreateSandbox_resources `{GoImpl} `{Collaborators}
    (a : App) (i : Image) (options : SandboxOptions) (n : Z) :
  Volumes_valid options ->
  F64.leb (S754_zero false) (CPU options) = true ->
  F64.floor (F64.mul (F64.of_int 1000) (CPU options)) = Some n ->
  n < 2 ^ 32 ->
  exists request,
    CreateSandbox_request (Some a) (Some i) (Some options)
    = Return (ctx a, request)
    /\ pb.MilliCpu (pb.Resources_ (pb.SandboxDefinition request)) = n
    /\ pb.MemoryMb (pb.Resources_ (pb.SandboxDefinition request))
       = Memory options mod 2 ^ 32
    /\ (0 <= Memory options < 2 ^ 32 ->
        pb.MemoryMb (pb.Resources_ (pb.SandboxDefinition request))
        = Memory options).
Proof.
  intros Hvalid Hc Hfloor Hn. eexists. split.
  - by apply CreateSandbox_request_Return.
  - cbn [pb.MilliCpu pb.MemoryMb pb.Resources_ pb.SandboxDefinition].
    split; [|split; [done|]].
    + apply uint32_of_float64_trunc.
      * by rewrite trunc_mul_1000.
      * split; [by eapply floor_nonneg|done].
    + intros Hm. unfold uint32. by apply Z.mod_small.
Qed.

(** A CPU request of 0.25 compiles to 250 milli-CPU, a memory request of
    512 MiB to 512. *)
Lemma CreateSandbox_resources_example :
  exists request,
    @CreateSandbox_request GoImpl_map_to_list fresh_server
      (Some app_1) (Some image_1) (Some (options_resources cpu_quarter 512))
    = Return (@ctx fresh_server app_1, request)
    /\ pb.MilliCpu (pb.Resources_ (pb.SandboxDefinition request)) = 250
    /\ pb.MemoryMb (pb.Resources_ (pb.SandboxDefinition request)) = 512
    /\ (0 <= 512 < 2 ^ 32 ->
        pb.MemoryMb (pb.Resources_ (pb.SandboxDefinition request)) = 512).
Proof.
  apply (@CreateSandbox_resources GoImpl_map_to_list fresh_server
           app_1 image_1 (options_resources cpu_quarter 512) 250).
  - exact I.
  - reflexivity.
  - reflexivity.
  - reflexivity.
Defined.

(** C6, as stated, fails.  A CPU request of 5000000 cores has the product
    5000000000, which no milli-CPU field holds; a memory request of -1 MiB
    is sent as 4294967295 MiB. *)
Lemma CreateSandbox_resources_out_of_range :
  F64.leb (S754_zero false) cpu_5e6 = true
  /\ F64.floor (F64.mul (F64.of_int 1000) cpu_5e6) = Some 5000000000
  /\ exists request,
       @CreateSandbox_request GoImpl_map_to_list fresh_server
         (Some app_1) (Some image_1) (Some (options_resources cpu_5e6 (-1)))
       = Return (@ctx fresh_server app_1, request)
       /\ pb.MilliCpu (pb.Resources_ (pb.SandboxDefinition request))
          <> 5000000000
       /\ pb.MemoryMb (pb.Resources_ (pb.SandboxDefinition request))
          = 4294967295.
Proof.
  split; [reflexivity|]. split; [reflexivity|].
  eexists. split; [reflexivity|]. split; [|reflexivity].
  change (@uint32_of_float64 GoImpl_map_to_list
            (F64.mul (F64.of_int 1000) cpu_5e6) <> 5000000000).
  pose proof (@uint32_of_float64_range GoImpl_map_to_list
                (F64.mul (F64.of_int 1000) cpu_5e6)). lia.
Qed.

(** The product by 1000 is a float64 product, rounded to nearest: for the
    float64 nearest to 0.57 it is 570, and the milli-CPU field is 570, while
    the floor of the exact product is 569. *)
Lemma CreateSandbox_resources_rounded_product `{GoImpl} :
  uint32_of_float64 (F64.mul (F64.of_int 1000) cpu_0_57) = 570
  /\ F64.floor_scaled 1000 cpu_0_57 = Some 569.
Proof. split; reflexivity. Qed.

(** * Further properties of app.go *)

(** ** AppLookup *)

(** [AppLookup] returns an App and a nil error, or a nil App and an error:
    never both, never neither. *)
Theorem AppLookup_app_xor_error `{Collaborators}
    (ctx0 : context_Context) (name : string) (options : option LookupOptions) :
  (exists app, AppLookup ctx0 name options = (Some app, None))
  \/ (exists e, AppLookup ctx0 name options = (None, Some e)).
Proof.
  unfold AppLookup.
  destruct (clientContext ctx0) as [ctx1 [e|]]; [right; by eexists|].
  destruct (client_AppGetOrCreate ctx1 _) as [resp [e|]]; simpl.
  - right. destruct (status.carried e) as [c|]; simpl; [|by eexists].
    destruct (codes.eqb c codes.NotFound); by eexists.
  - left. by eexists.
Qed.

(** Without credentials the lookup fails with the error of [clientContext],
    though the control plane would have answered. *)
Lemma AppLookup_clientContext_error_example :
  @AppLookup client_without_credentials [] "demo" None
  = (None, Some (PlainError "missing token")).
Proof.
  apply (@AppLookup_clientContext_error client_without_credentials
           [] [] "demo" None (PlainError "missing token")).
  reflexivity.
Defined.

(** On a transport that answers NotFound only to requests without creation,
    a lookup with creation translates nothing: it returns the App, or the
    error of the call as it is. *)
Theorem AppLookup_creation_passthrough `{Collaborators}
    (ctx0 ctx1 : context_Context) (name : string) (options : LookupOptions)
    (resp : option pb.AppGetOrCreateResponse) (err : option error) :
  NotFound_only_without_creation ->
  clientContext ctx0 = (ctx1, None) ->
  CreateIfMissing options = true ->
  client_AppGetOrCreate ctx1 (lookup_request name options) = (resp, err) ->
  AppLookup ctx0 name (Some options)
  = match err with
    | Some e => (None, Some e)
    | None => (Some {| AppId := pb.GetAppId resp; ctx := ctx1 |}, None)
    end.
Proof.
  intros Hcontract Hctx Hcreate Hcall.
  rewrite (AppLookup_cases ctx0 ctx1 name options resp err Hctx Hcall).
  destruct err as [e|]; [|done].
  destruct (status.carried e) as [c|] eqn:Hc; [|done].
  destruct c; try done.
  specialize (Hcontract _ _ _ _ Hcall Hc). simpl in Hcontract.
  by rewrite Hcreate in Hcontract.
Qed.

(** On the control plane without apps a lookup with creation returns the
    app created. *)
Lemma AppLookup_creation_passthrough_example :
  @AppLookup fresh_server [] "demo"
    (Some {| Environment := "dev"; CreateIfMissing := true |})
  = (Some (@Build_App fresh_server "ap-demo" ["x-modal-client"]%string),
     None).
Proof.
  apply (@AppLookup_creation_passthrough fresh_server
           [] ["x-modal-client"]%string "demo"
           {| Environment := "dev"; CreateIfMissing := true |}
           (Some {| pb.AppGetOrCreateResponse_AppId := "ap-demo" |}) None).
  - intros c request resp e. simpl.
    destruct (pb.ObjectCreationType_ request); [done|]. intros [=].
  - reflexivity.
  - reflexivity.
  - reflexivity.
Defined.

(** ** CreateSandbox: panics and results *)

Lemma Volumes_valid_dec (options : SandboxOptions) :
  Volumes_valid options \/ ~ Volumes_valid options.
Proof.
  unfold Volumes_valid. destruct (Volumes options) as [volumes|]; [|by left].
  destruct (decide (map_Forall (fun (_ : string) (volume : option Volume) =>
                                  is_Some volume) volumes));
    [by left | by right].
Qed.

(** [CreateSandbox] panics exactly on a nil app, a nil image or a nil volume
    in the mapping; a nil [options] never makes it panic. *)
Theorem CreateSandbox_Panic_iff `{GoImpl} `{Collaborators}
    (app : option App) (image : option Image)
    (options : option SandboxOptions) :
  CreateSandbox app image options = Panic
  <-> app = None \/ image = None
      \/ ~ Volumes_valid (default SandboxOptions_zero options).
Proof.
  assert (Hzero : CreateSandbox app image options
                  = CreateSandbox app image
                      (Some (default SandboxOptions_zero options)))
    by (by destruct options).
  rewrite Hzero. set (o := default SandboxOptions_zero options).
  split.
  - intros Hpanic. destruct app as [a|]; [|by left].
    destruct image as [i|]; [|by right; left].
    destruct (Volumes_valid_dec o) as [Hvalid|Hinvalid]; [|by right; right].
    exfalso. unfold CreateSandbox in Hpanic.
    rewrite (CreateSandbox_request_Return a i o Hvalid) in Hpanic.
    simpl in Hpanic.
    by destruct (client_SandboxCreate _ _) as [createResp [err|]].
  - intros Hnil. unfold CreateSandbox.
    by rewrite (CreateSandbox_request_Panic app image o Hnil).
Qed.



(** With nil options the compiled definition has the image, an open network
    access and nothing else: no entrypoint arguments, a timeout of 0, no
    CPU and no memory request, no mount and an absent port-spec field. *)
Theorem CreateSandbox_nil_options `{GoImpl} `{Collaborators}
    (a : App) (i : Image) :
  CreateSandbox_request (Some a) (Some i) None
  = Return
      (ctx a,
       {| pb.AppId := AppId a;
          pb.SandboxDefinition :=
            {| pb.EntrypointArgs := [];
               pb.ImageId := ImageId i;
               pb.TimeoutSecs := 0;
               pb.NetworkAccess_ :=
                 {| pb.NetworkAccessType_ := pb.NetworkAccess_OPEN |};
               pb.Resources_ := {| pb.MilliCpu := 0; pb.MemoryMb := 0 |};
               pb.VolumeMounts := [];
               pb.OpenPorts := None |} |}).
Proof. reflexivity. Qed.

(** ** CreateSandbox: ports *)

Lemma filter_fmap_all {A : Type} (category : pb.PortSpec -> bool)
    (spec : A -> pb.PortSpec) (l : list A) :
  (forall x, category (spec x) = true) ->
  List.filter category (spec <$> l) = spec <$> l.
Proof.
  intros Hall. induction l as [|x l IH]; [done|].
  rewrite fmap_cons. simpl. rewrite Hall. by rewrite IH.
Qed.

Lemma filter_fmap_none {A : Type} (category : pb.PortSpec -> bool)
    (spec : A -> pb.PortSpec) (l : list A) :
  (forall x, category (spec x) = false) ->
  List.filter category (spec <$> l) = [].
Proof.
  intros Hnone. induction l as [|x l IH]; [done|].
  rewrite fmap_cons. simpl. by rewrite Hnone.
Qed.

Lemma fmap_uint32_in_range (ports : list Z) :
  Forall (fun port => 0 <= port < 2 ^ 32) ports ->
  uint32 <$> ports = ports.
Proof.
  induction 1 as [|port ports Hport _ IH]; [done|].
  rewrite fmap_cons, IH. f_equal. unfold uint32. by apply Z.mod_small.
Qed.

(** The compiled port sequence has one specification per port given: as
    many as the three lists together, a port given twice compiled twice. *)
Theorem CreateSandbox_ports_length `{GoImpl} `{Collaborators}
    (a : App) (i : Image) (options : SandboxOptions) :
  Volumes_valid options ->
  exists request,
    CreateSandbox_request (Some a) (Some i) (Some options)
    = Return (ctx a, request)
    /\ length (GetPorts (pb.OpenPorts (pb.SandboxDefinition request)))
       = (length (EncryptedPorts options) + length (H2Ports options)
          + length (UnencryptedPorts options))%nat.
Proof.
  intros Hvalid. eexists. split; [by apply CreateSandbox_request_Return|].
  simpl.
  replace (GetPorts _) with (classified_ports options)
    by (by destruct (classified_ports options)).
  unfold classified_ports. rewrite !length_app, !length_fmap. lia.
Qed.

(** The four ports of the example compile to four specifications. *)
Lemma CreateSandbox_ports_length_example :
  exists request,
    @CreateSandbox_request GoImpl_map_to_list fresh_server
      (Some app_1) (Some image_1) (Some options_ports)
    = Return (@ctx fresh_server app_1, request)
    /\ length (GetPorts (pb.OpenPorts (pb.SandboxDefinition request)))
       = 4%nat.
Proof.
  apply (@CreateSandbox_ports_length GoImpl_map_to_list fresh_server
           app_1 image_1 options_ports).
  exact I.
Defined.

(** The three port lists can be read back from the compiled sequence: when
    every port is from 0 to 2^32 - 1, the ports of the specifications of
    each category, in order, are the list given for that category. *)
Theorem CreateSandbox_ports_read_back `{GoImpl} `{Collaborators}
    (a : App) (i : Image) (options : SandboxOptions) :
  Volumes_valid options ->
  Forall (fun port => 0 <= port < 2 ^ 32)
    (EncryptedPorts options ++ H2Ports options ++ UnencryptedPorts options) ->
  exists request,
    CreateSandbox_request (Some a) (Some i) (Some options)
    = Return (ctx a, request)
    /\ ports_of is_encrypted
         (GetPorts (pb.OpenPorts (pb.SandboxDefinition request)))
       = EncryptedPorts options
    /\ ports_of is_h2
         (GetPorts (pb.OpenPorts (pb.SandboxDefinition request)))
       = H2Ports options
    /\ ports_of is_unencrypted
         (GetPorts (pb.OpenPorts (pb.SandboxDefinition request)))
       = UnencryptedPorts options.
Proof.
  intros Hvalid Hrange.
  apply Forall_app in Hrange as [He Hrange].
  apply Forall_app in Hrange as [Hh Hu].
  eexists. split; [by apply CreateSandbox_request_Return|].
  simpl.
  replace (GetPorts _) with (classified_ports options)
    by (by destruct (classified_ports options)).
  unfold ports_of, classified_ports. rewrite !List.filter_app.
  repeat split.
  - rewrite (filter_fmap_all is_encrypted encrypted_spec) by done.
    rewrite (filter_fmap_none is_encrypted h2_spec) by done.
    rewrite (filter_fmap_none is_encrypted unencrypted_spec) by done.
    rewrite !app_nil_r, <- list_fmap_compose.
    by apply fmap_uint32_in_range.
  - rewrite (filter_fmap_none is_h2 encrypted_spec) by done.
    rewrite (filter_fmap_all is_h2 h2_spec) by done.
    rewrite (filter_fmap_none is_h2 unencrypted_spec) by done.
    rewrite app_nil_r, app_nil_l, <- list_fmap_compose.
    by apply fmap_uint32_in_range.
  - rewrite (filter_fmap_none is_unencrypted encrypted_spec) by done.
    rewrite (filter_fmap_none is_unencrypted h2_spec) by done.
    rewrite (filter_fmap_all is_unencrypted unencrypted_spec) by done.
    rewrite !app_nil_l, <- list_fmap_compose.
    by apply fmap_uint32_in_range.
Qed.

(** The lists of the example are read back from its compiled sequence. *)
Lemma CreateSandbox_ports_read_back_example :
  exists request,
    @CreateSandbox_request GoImpl_map_to_list fresh_server
      (Some app_1) (Some image_1) (Some options_ports)
    = Return (@ctx fresh_server app_1, request)
    /\ ports_of is_encrypted
         (GetPorts (pb.OpenPorts (pb.SandboxDefinition request))) = [1; 2]
    /\ ports_of is_h2
         (GetPorts (pb.OpenPorts (pb.SandboxDefinition request))) = [3]
    /\ ports_of is_unencrypted
         (GetPorts (pb.OpenPorts (pb.SandboxDefinition request))) = [4].
Proof.
  apply (@CreateSandbox_ports_read_back GoImpl_map_to_list fresh_server
           app_1 image_1 options_ports).
  - exact I.
  - repeat constructor; simpl; lia.
Defined.

(** ** CreateSandbox: volumes *)

(** The mounts of the compiled definition are looked up by path like the
    mapping: a mount is in the definition exactly when it is the mount of an
    entry of the mapping, and no two mounts have the same path. *)
Theorem CreateSandbox_volume_lookup `{GoImpl} `{Collaborators}
    (a : App) (i : Image) (options : SandboxOptions)
    (volumes : gmap string Volume) :
  Volumes options = Some (Some <$> volumes) ->
  exists request,
    CreateSandbox_request (Some a) (Some i) (Some options)
    = Return (ctx a, request)
    /\ (forall mount,
           mount ∈ pb.VolumeMounts (pb.SandboxDefinition request)
           <-> exists mountPath volume,
                 volumes !! mountPath = Some volume
                 /\ mount = mount_of (mountPath, volume))
    /\ NoDup (pb.MountPath
                <$> pb.VolumeMounts (pb.SandboxDefinition request)).
Proof.
  intros Hvolumes.
  assert (Hvalid : Volumes_valid options).
  { unfold Volumes_valid. rewrite Hvolumes.
    intros mountPath volume. rewrite lookup_fmap.
    destruct (volumes !! mountPath); simpl; [|done].
    intros [= <-]. by eexists. }
  eexists. split; [by apply CreateSandbox_request_Return|].
  simpl. rewrite Hvolumes.
  assert (Hperm : omap entry_mount (range_map (Some <$> volumes))
                  ≡ₚ mount_of <$> map_to_list volumes).
  { rewrite (range_map_perm (Some <$> volumes)), map_to_list_fmap.
    by rewrite omap_entry_mount_Some. }
  split.
  - intros mount. rewrite Hperm, list_elem_of_fmap. split.
    + intros ([mountPath volume] & -> & Hin).
      apply elem_of_map_to_list in Hin. by exists mountPath, volume.
    + intros (mountPath & volume & Hlookup & ->).
      exists (mountPath, volume). split; [done|].
      by apply elem_of_map_to_list.
  - rewrite Hperm, <- list_fmap_compose.
    apply (NoDup_fst_map_to_list volumes).
Qed.

(** The two mounts of [volumes_2]. *)
Lemma CreateSandbox_volume_lookup_example :
  exists request,
    @CreateSandbox_request GoImpl_map_to_list fresh_server
      (Some app_1) (Some image_1) (Some options_volumes)
    = Return (@ctx fresh_server app_1, request)
    /\ (forall mount,
           mount ∈ pb.VolumeMounts (pb.SandboxDefinition request)
           <-> exists mountPath volume,
                 volumes_2 !! mountPath = Some volume
                 /\ mount = mount_of (mountPath, volume))
    /\ NoDup (pb.MountPath
                <$> pb.VolumeMounts (pb.SandboxDefinition request)).
Proof.
  apply (@CreateSandbox_volume_lookup GoImpl_map_to_list fresh_server
           app_1 image_1 options_volumes volumes_2).
  reflexivity.
Defined.

(** A float64 whose integer part fits a [uint32] converts alike on every
    implementation. *)
Lemma uint32_of_float64_representable (G1 G2 : GoImpl) (f : F64.t) (z : Z) :
  F64.trunc f = Some z -> 0 <= z < 2 ^ 32 ->
  @uint32_of_float64 G1 f = @uint32_of_float64 G2 f.
Proof.
  intros Hf Hz.
  by rewrite (@uint32_of_float64_trunc G1 f z), (@uint32_of_float64_trunc G2 f z).
Qed.

(** The compiled request is the same on every implementation of the
    language, but for the order of the mounts, and for the timeout and the
    milli-CPU when their float64 does not fit a [uint32]. *)
Theorem CreateSandbox_reproducible (G1 G2 : GoImpl) `{Collaborators}
    (a : App) (i : Image) (options : SandboxOptions) :
  Volumes_valid options ->
  exists request1 request2,
    @CreateSandbox_request G1 _ (Some a) (Some i) (Some options)
    = Return (ctx a, request1)
    /\ @CreateSandbox_request G2 _ (Some a) (Some i) (Some options)
       = Return (ctx a, request2)
    /\ pb.AppId request1 = pb.AppId request2
    /\ pb.EntrypointArgs (pb.SandboxDefinition request1)
       = pb.EntrypointArgs (pb.SandboxDefinition request2)
    /\ pb.ImageId (pb.SandboxDefinition request1)
       = pb.ImageId (pb.SandboxDefinition request2)
    /\ pb.NetworkAccess_ (pb.SandboxDefinition request1)
       = pb.NetworkAccess_ (pb.SandboxDefinition request2)
    /\ pb.MemoryMb (pb.Resources_ (pb.SandboxDefinition request1))
       = pb.MemoryMb (pb.Resources_ (pb.SandboxDefinition request2))
    /\ pb.OpenPorts (pb.SandboxDefinition request1)
       = pb.OpenPorts (pb.SandboxDefinition request2)
    /\ pb.VolumeMounts (pb.SandboxDefinition request1)
       ≡ₚ pb.VolumeMounts (pb.SandboxDefinition request2)
    /\ (forall z,
           F64.trunc (time.Seconds (Timeout options)) = Some z ->
           0 <= z < 2 ^ 32 ->
           pb.TimeoutSecs (pb.SandboxDefinition request1)
           = pb.TimeoutSecs (pb.SandboxDefinition request2))
    /\ (forall z,
           F64.trunc (F64.mul (F64.of_int 1000) (CPU options)) = Some z ->
           0 <= z < 2 ^ 32 ->
           pb.MilliCpu (pb.Resources_ (pb.SandboxDefinition request1))
           = pb.MilliCpu (pb.Resources_ (pb.SandboxDefinition request2))).
Proof.
  intros Hvalid. eexists _, _.
  split; [by apply (@CreateSandbox_request_Return G1)|].
  split; [by apply (@CreateSandbox_request_Return G2)|].
  cbn [pb.AppId pb.EntrypointArgs pb.ImageId pb.NetworkAccess_ pb.MemoryMb
       pb.Resources_ pb.OpenPorts pb.VolumeMounts pb.TimeoutSecs pb.MilliCpu
       pb.SandboxDefinition].
  repeat (split; [done|]). split; [|split].
  - destruct (Volumes options) as [volumes|]; [|done].
    by rewrite (@range_map_perm G1), (@range_map_perm G2).
  - intros z. apply uint32_of_float64_representable.
  - intros z. apply uint32_of_float64_representable.
Qed.

(** The two volumes of [volumes_2], visited in the two orders. *)
Lemma CreateSandbox_reproducible_example :
  exists request1 request2,
    @CreateSandbox_request GoImpl_map_to_list fresh_server
      (Some app_1) (Some image_1) (Some options_volumes)
    = Return (@ctx fresh_server app_1, request1)
    /\ @CreateSandbox_request GoImpl_reverse fresh_server
         (Some app_1) (Some image_1) (Some options_volumes)
       = Return (@ctx fresh_server app_1, request2)
    /\ pb.AppId request1 = pb.AppId request2
    /\ pb.EntrypointArgs (pb.SandboxDefinition request1)
       = pb.EntrypointArgs (pb.SandboxDefinition request2)
    /\ pb.ImageId (pb.SandboxDefinition request1)
       = pb.ImageId (pb.SandboxDefinition request2)
    /\ pb.NetworkAccess_ (pb.SandboxDefinition request1)
       = pb.NetworkAccess_ (pb.SandboxDefinition request2)
    /\ pb.MemoryMb (pb.Resources_ (pb.SandboxDefinition request1))
       = pb.MemoryMb (pb.Resources_ (pb.SandboxDefinition request2))
    /\ pb.OpenPorts (pb.SandboxDefinition request1)
       = pb.OpenPorts (pb.SandboxDefinition request2)
    /\ pb.VolumeMounts (pb.SandboxDefinition request1)
       ≡ₚ pb.VolumeMounts (pb.SandboxDefinition request2)
    /\ (forall z,
           F64.trunc (time.Seconds 0) = Some z ->
           0 <= z < 2 ^ 32 ->
           pb.TimeoutSecs (pb.SandboxDefinition request1)
           = pb.TimeoutSecs (pb.SandboxDefinition request2))
    /\ (forall z,
           F64.trunc (F64.mul (F64.of_int 1000) (S754_zero false)) = Some z ->
           0 <= z < 2 ^ 32 ->
           pb.MilliCpu (pb.Resources_ (pb.SandboxDefinition request1))
           = pb.MilliCpu (pb.Resources_ (pb.SandboxDefinition request2))).
Proof.
  apply (@CreateSandbox_reproducible GoImpl_map_to_list GoImpl_reverse
           fresh_server app_1 image_1 options_volumes).
  intros mountPath volume. unfold volumes_2.
  rewrite lookup_fmap. intros Hlookup.
  destruct (_ !! mountPath); simpl in Hlookup; [|done].
  injection Hlookup as <-. by eexists.
Defined.

(** ** float64: exact products and sums within one unit *)

(** Rounding a mantissa whose bits below the precision are zero changes
    nothing: the result is the mantissa shifted, exactly. *)
Lemma binary_round_aux_exact sx k sh ex :
  2 ^ 52 <= k < 2 ^ 53 -> 0 <= sh -> -1074 <= ex + sh <= 971 ->
  binary_round_aux F64.prec F64.emax sx (k * 2 ^ sh) ex loc_Exact
  = S754_finite sx (Z.to_pos k) (ex + sh).
Proof.
  intros Hk Hsh Hex.
  assert (Hp : 0 < 2 ^ sh) by (apply Z.pow_pos_nonneg; lia).
  assert (Hd : Zdigits2 (k * 2 ^ sh) = 53 + sh).
  { apply Zdigits2_unique; [nia|].
    replace (53 + sh - 1) with (52 + sh) by lia.
    rewrite !Z.pow_add_r by lia. nia. }
  destruct (binary_round_aux_spec sx (k * 2 ^ sh) ex loc_Exact)
    as (m1 & Hb & Hexact & ->); [nia|].
  specialize (Hexact eq_refl). rewrite Hd in *.
  assert (Hf : fexp64 (53 + sh + ex) - ex = sh) by (rewrite fexp64_eq; lia).
  rewrite Hf in *. replace (Z.max 0 sh) with sh in * by lia.
  rewrite Z.div_mul in Hb by lia.
  assert (m1 = k) by nia. subst m1.
  assert (Hdk : Zdigits2 k = 53) by (apply Zdigits2_unique; lia).
  rewrite Hdk.
  replace (Z.max 0 (fexp64 (53 + (ex + sh)) - (ex + sh))) with 0
    by (rewrite fexp64_eq; lia).
  rewrite Z.pow_0_r, Z.div_1_r, Z.add_0_r.
  apply finish_finite; lia.
Qed.

(** The float64 product of 1000 and of a positive integer is the float64 of
    the product, while that is below 2^53. *)
Lemma mul_1000_of_int n :
  0 < n -> 1000 * n < 2 ^ 53 ->
  F64.mul (F64.of_int 1000) (F64.of_int n) = F64.of_int (1000 * n).
Proof.
  intros Hn Hlt.
  destruct (of_int_pos n) as (mn & Hfn & Hmn); [lia|].
  destruct (of_int_pos (1000 * n)) as (mk & Hfk & Hmk); [lia|].
  destruct (Zdigits2_range n 0 53 Hn) as [Hdn0 Hdn]; [lia..|].
  destruct (Zdigits2_range (1000 * n) 0 53) as [Hdk0 Hdk]; [lia..|].
  pose proof (Zdigits2_bounds n Hn) as [Hnlo _].
  destruct (Zdigits2_range (1000 * n) (Zdigits2 n - 1) 53) as [Hdkn _];
    [lia..|].
  set (dn := Zdigits2 n) in *. set (dk := Zdigits2 (1000 * n)) in *.
  rewrite Hfn, Hfk, of_int_1000. unfold F64.mul, SFmul. simpl xorb.
  assert (Hmx : Z.pos (8796093022208000 * mn)
                = Z.pos mk * 2 ^ (43 + dk - dn)).
  { rewrite Pos2Z.inj_mul, Hmn, Hmk.
    change 8796093022208000 with (1000 * 2 ^ 43).
    replace (43 + dk - dn) with (43 + (53 - dn) - (53 - dk)) by lia.
    assert (Hsplit : 2 ^ 43 * 2 ^ (53 - dn)
                     = 2 ^ (53 - dk) * 2 ^ (43 + (53 - dn) - (53 - dk))).
    { rewrite <- !Z.pow_add_r by lia. f_equal. lia. }
    nia. }
  rewrite Hmx.
  assert (Hmk_range : 2 ^ 52 <= Z.pos mk < 2 ^ 53)
    by (rewrite Hmk; apply mantissa_53; lia).
  rewrite binary_round_aux_exact by lia.
  rewrite Pos2Z.id. f_equal. lia.
Qed.

(** The sum of a whole number of seconds below 2^32 - 1 and of a fraction
    below 1 is, once truncated, that number or the next one. *)
Lemma trunc_add_fraction_within sec mq eq :
  0 < sec < 2 ^ 32 - 1 ->
  eq <= 0 ->
  Z.pos mq < 2 ^ (- eq) ->
  exists z,
    F64.trunc (F64.add (F64.of_int sec) (S754_finite false mq eq)) = Some z
    /\ sec <= z <= sec + 1.
Proof.
  intros [Hpos Hlt] Heq Hq.
  destruct (of_int_pos sec) as (ms & Hs & Hms); [lia|].
  destruct (Zdigits2_range sec 0 32 Hpos) as [Hk1 Hk32]; [lia|lia|].
  assert (Hms_range : 2 ^ 52 <= Z.pos ms < 2 ^ 53)
    by (rewrite Hms; apply mantissa_53; lia).
  set (es := Zdigits2 sec - 53) in *.
  unfold F64.add. rewrite Hs. unfold SFadd, cond_Zopp.
  set (ez := Z.min es eq).
  destruct (shl_align_spec ms es ez) as [_ HA].
  destruct (shl_align_spec mq eq ez) as [_ HB].
  replace (Z.min es ez) with ez in HA by lia.
  replace (Z.min eq ez) with ez in HB by lia.
  rewrite HA, HB.
  set (a := es - ez) in *. set (b := eq - ez) in *.
  set (T := 2 ^ (- ez)).
  assert (HT : T = 2 ^ (- eq) * 2 ^ b)
    by (unfold T, b; rewrite <- Z.pow_add_r by lia; f_equal; lia).
  assert (HsT : Z.pos ms * 2 ^ a = sec * T).
  { rewrite Hms. unfold T, a. rewrite <- Z.mul_assoc. f_equal.
    rewrite <- Z.pow_add_r by lia. f_equal. lia. }
  assert (Hpa : 0 < 2 ^ a) by (apply Z.pow_pos_nonneg; lia).
  assert (Hpb : 0 < 2 ^ b) by (apply Z.pow_pos_nonneg; lia).
  set (B := Z.pos mq * 2 ^ b) in *.
  assert (HB0 : 0 < B) by (unfold B; lia).
  assert (HBT : B < T) by (unfold B; rewrite HT; nia).
  rewrite HsT.
  set (M := sec * T + B).
  assert (HT0 : 0 < T) by (apply Z.pow_pos_nonneg; lia).
  assert (HM0 : 0 < M) by (unfold M; nia).
  assert (HMlo : 2 ^ (52 + a) <= M).
  { rewrite Z.pow_add_r by lia. unfold M. rewrite <- HsT. nia. }
  assert (HMhi : M < 2 ^ (32 - ez)).
  { replace (32 - ez) with (32 + - ez) by lia.
    rewrite Z.pow_add_r by lia. fold T. unfold M. nia. }
  destruct (Zdigits2_range M (52 + a) (32 - ez) HM0) as [HdM1 HdM2];
    [lia|lia|].
  pose proof (Zdigits2_bounds M HM0) as [HMb1 HMb2].
  rewrite binary_normalize_pos by done.
  set (dM := Zdigits2 M) in *.
  assert (He1 : fexp64 (dM + ez) = dM + ez - 53)
    by (rewrite fexp64_eq; lia).
  rewrite He1. set (e1 := dM + ez - 53) in *.
  assert (He1ez : ez <= e1) by lia.
  assert (He1hi : e1 <= -21) by lia.
  assert (He1lo : -52 <= e1) by lia.
  assert (HdMe : dM = 53 + (e1 - ez)) by lia.
  clearbody e1.
  clear HMlo HMhi HdM1 HdM2 He1 HA HB Hms Hs Hk1 Hk32 Hq HT Hpa Hpb HsT
    Hms_range.
  replace (Z.min ez e1) with ez by lia.
  rewrite Z.sub_diag, Z.pow_0_r, Z.mul_1_r.
  destruct (binary_round_aux_spec false M ez loc_Exact HM0)
    as (m1 & Hb & Hexact & ->).
  specialize (Hexact eq_refl). fold dM in Hb, Hexact |- *.
  replace (fexp64 (dM + ez)) with e1 in *
    by (rewrite fexp64_eq; lia).
  replace (Z.max 0 (e1 - ez)) with (e1 - ez) in * by lia.
  set (sh1 := e1 - ez) in *.
  replace (ez + sh1) with e1 by lia.
  set (S1 := 2 ^ sh1) in *.
  assert (HS1 : 0 < S1) by (apply Z.pow_pos_nonneg; lia).
  set (P := 2 ^ (- e1)).
  assert (HP : 0 < P) by (apply Z.pow_pos_nonneg; lia).
  assert (HTP : T = S1 * P)
    by (unfold T, S1, P; rewrite <- Z.pow_add_r by lia; f_equal; lia).
  assert (HMS : 2 ^ 52 * S1 <= M < 2 ^ 53 * S1).
  { unfold S1. rewrite <- !Z.pow_add_r by lia.
    replace (52 + sh1) with (dM - 1) by lia.
    replace (53 + sh1) with dM by lia. lia. }
  clear HMb1 HMb2.
  assert (Hm1 : 2 ^ 52 <= m1 <= 2 ^ 53).
  { assert (2 ^ 52 <= M / S1 < 2 ^ 53).
    { split; [apply Z.div_le_lower_bound; lia
             |apply Z.div_lt_upper_bound; lia]. }
    lia. }
  destruct (Zdigits2_range m1 52 54) as [Hd1 Hd2]; [lia..|].
  set (sh2 := Z.max 0 (fexp64 (Zdigits2 m1 + e1) - e1)).
  assert (Hsh2 : sh2 = 0 \/ sh2 = 1)
    by (unfold sh2; rewrite fexp64_eq; lia).
  assert (Hpsh2 : 0 < 2 ^ sh2) by (apply Z.pow_pos_nonneg; lia).
  assert (Hmf : 0 < m1 / 2 ^ sh2).
  { apply Z.div_str_pos. destruct Hsh2 as [->| ->]; simpl; lia. }
  rewrite finish_finite by lia.
  eexists. split.
  { simpl. rewrite Z2Pos.id by lia.
    rewrite Z.shiftl_div_pow2 by lia.
    rewrite Z.div_div by (try apply Z.pow_pos_nonneg; lia).
    rewrite <- Z.pow_add_r by lia.
    replace (sh2 + - (e1 + sh2)) with (- e1) by lia. fold P. reflexivity. }
  assert (Hlow : sec * P <= m1).
  { assert (sec * P <= M / S1); [|lia].
    apply Z.div_le_lower_bound; [lia|]. unfold M. rewrite HTP. nia. }
  assert (Hup : m1 < (sec + 1) * P + 1).
  { apply (Z.mul_lt_mono_pos_r S1); [lia|].
    replace (((sec + 1) * P + 1) * S1) with (sec * T + T + S1)
      by (rewrite HTP; ring).
    unfold M in Hexact. clear - Hexact HBT HS1. lia. }
  split.
  - apply Z.div_le_lower_bound; lia.
  - apply Z.div_le_upper_bound; lia.
Qed.

(** Read through [Seconds] and truncated, a duration from 0 to 2^32 - 1
    seconds (excluded) gives its floor in seconds or one more. *)
Lemma trunc_Seconds_within d :
  0 <= d < (2 ^ 32 - 1) * 1000000000 ->
  exists z,
    F64.trunc (time.Seconds d) = Some z
    /\ d / 1000000000 <= z <= d / 1000000000 + 1.
Proof.
  intros [Hd0 Hd1]. unfold time.Seconds, time.Second.
  rewrite Z.quot_div_nonneg, Z.rem_mod_nonneg by lia.
  pose proof (Z.mod_pos_bound d 1000000000 ltac:(lia)) as Hnsec.
  assert (Hsec : 0 <= d / 1000000000 < 2 ^ 32 - 1).
  { split; [apply Z.div_pos; lia|apply Z.div_lt_upper_bound; lia]. }
  set (sec := d / 1000000000) in *. set (nsec := d mod 1000000000) in *.
  destruct (Z.eq_dec nsec 0) as [Hn|Hn].
  - exists sec. split; [|lia].
    rewrite Hn. change (F64.div (F64.of_int 0) (F64.of_int 1000000000))
      with (S754_zero false).
    destruct (Z.eq_dec sec 0) as [Hs|Hs].
    + by rewrite Hs.
    + destruct (of_int_pos sec) as (ms & Hms & Hval); [lia|].
      rewrite <- (trunc_of_int_pos sec) by lia.
      rewrite Hms. reflexivity.
  - destruct (div_nsec nsec) as (mq & eq & -> & Heq & Hq); [lia|].
    assert (Hq1 : Z.pos mq < 2 ^ (- eq)).
    { assert (0 < 2 ^ (- eq)) by (apply Z.pow_pos_nonneg; lia). lia. }
    destruct (Z.eq_dec sec 0) as [Hs|Hs].
    + exists 0. split; [|lia]. rewrite Hs. simpl. f_equal.
      rewrite Z.shiftl_div_pow2 by lia. by apply Z.div_small.
    + apply trunc_add_fraction_within; [lia|done|done].
Qed.

(** ** CreateSandbox: timeout and CPU *)

(** A timeout of one year compiles to its 31536000 seconds. *)
Lemma CreateSandbox_timeout_whole_seconds_example :
  exists request,
    @CreateSandbox_request GoImpl_map_to_list fresh_server
      (Some app_1) (Some image_1) (Some (options_timeout timeout_1_year))
    = Return (@ctx fresh_server app_1, request)
    /\ pb.TimeoutSecs (pb.SandboxDefinition request) = 31536000.
Proof.
  apply (@CreateSandbox_timeout_whole_seconds GoImpl_map_to_list fresh_server
           app_1 image_1 (options_timeout timeout_1_year) 31536000).
  - exact I.
  - lia.
  - reflexivity.
Defined.

(** For every timeout from 0 to 2^32 - 1 seconds (excluded), the timeout
    field of the compiled definition is the floor of the timeout in seconds
    or one second more: the float64 sum of [Seconds] never adds more. *)
Theorem CreateSandbox_timeout_within_one `{GoImpl} `{Collaborators}
    (a : App) (i : Image) (options : SandboxOptions) :
  Volumes_valid options ->
  0 <= Timeout options < (2 ^ 32 - 1) * time.Second ->
  exists request,
    CreateSandbox_request (Some a) (Some i) (Some options)
    = Return (ctx a, request)
    /\ Timeout options / time.Second
       <= pb.TimeoutSecs (pb.SandboxDefinition request)
       <= Timeout options / time.Second + 1.
Proof.
  intros Hvalid Hrange. eexists. split.
  - by apply CreateSandbox_request_Return.
  - cbn [pb.TimeoutSecs pb.SandboxDefinition]. unfold time.Second in *.
    destruct (trunc_Seconds_within (Timeout options) Hrange)
      as (z & Hz & Hbounds).
    assert (Hsec : 0 <= Timeout options / 1000000000 < 2 ^ 32 - 1).
    { split; [apply Z.div_pos; lia|apply Z.div_lt_upper_bound; lia]. }
    rewrite (uint32_of_float64_trunc _ z Hz); lia.
Qed.

(** A timeout of 2^24 seconds and 999999999 nanoseconds compiles to its
    floor or to one more. *)
Lemma CreateSandbox_timeout_within_one_example :
  exists request,
    @CreateSandbox_request GoImpl_map_to_list fresh_server
      (Some app_1) (Some image_1) (Some (options_timeout timeout_194_days))
    = Return (@ctx fresh_server app_1, request)
    /\ 16777216 <= pb.TimeoutSecs (pb.SandboxDefinition request)
       <= 16777216 + 1.
Proof.
  apply (@CreateSandbox_timeout_within_one GoImpl_map_to_list fresh_server
           app_1 image_1 (options_timeout timeout_194_days)).
  - exact I.
  - unfold timeout_194_days, time.Second. simpl. lia.
Defined.

(** A CPU request of a whole number of cores, from 0 to 4294967, compiles
    to exactly 1000 times as many milli-CPU. *)
Theorem CreateSandbox_whole_cores `{GoImpl} `{Collaborators}
    (a : App) (i : Image) (options : SandboxOptions) (cores : Z) :
  Volumes_valid options ->
  0 <= cores <= 4294967 ->
  CPU options = F64.of_int cores ->
  exists request,
    CreateSandbox_request (Some a) (Some i) (Some options)
    = Return (ctx a, request)
    /\ pb.MilliCpu (pb.Resources_ (pb.SandboxDefinition request))
       = 1000 * cores.
Proof.
  intros Hvalid Hrange Hcpu. eexists. split.
  - by apply CreateSandbox_request_Return.
  - cbn [pb.MilliCpu pb.Resources_ pb.SandboxDefinition]. rewrite Hcpu.
    apply uint32_of_float64_trunc; [|lia].
    destruct (Z.eq_dec cores 0) as [->|Hpos]; [done|].
    rewrite mul_1000_of_int by lia.
    apply trunc_of_int_pos. lia.
Qed.

(** Two cores compile to 2000 milli-CPU. *)
Lemma CreateSandbox_whole_cores_example :
  exists request,
    @CreateSandbox_request GoImpl_map_to_list fresh_server
      (Some app_1) (Some image_1)
      (Some (options_resources (F64.of_int 2) 0))
    = Return (@ctx fresh_server app_1, request)
    /\ pb.MilliCpu (pb.Resources_ (pb.SandboxDefinition request)) = 2000.
Proof.
  apply (@CreateSandbox_whole_cores GoImpl_map_to_list fresh_server
           app_1 image_1 (options_resources (F64.of_int 2) 0) 2).
  - exact I.
  - lia.
  - reflexivity.
Defined.
